(** * kalman-tracker: the tracked point and the per-frame association engine

    A shallow embedding of [tracked_point.py].

    - Python numbers are kept abstract: the class [Numeric] gives the
      operations the module uses ([+], [-], [*], [sqrt], [<], [<=],
      [np.inf], literals).  Two instances are given further down: IEEE
      binary64 floats (what numpy computes with) and extended integers
      (exact arithmetic).
    - [filterpy]'s [KalmanFilter.predict] and [KalmanFilter.update] are a
      library outside the module: they are the class [KalmanLib].  The
      class [KalmanRaises] is [update] together with the exceptions it
      raises, and [step_raising] is [step] over it.
    - A [TrackedPoint] is a mutable object.  Its methods are state
      transformers on the record of its attributes; the engine works on a
      store of objects, and the list [tracked_objects] holds references, so
      that [list.remove] finds a track by identity as Python does.
    - Exceptions are the [Raise] results of [result]. *)

From Stdlib Require Import ZArith List Bool Lia Permutation Floats.
From Equations Require Import Equations.
Import ListNotations.

Set Implicit Arguments.

(** ** Exceptions *)

Inductive exn : Type :=
| TypeError    (* subscripting [None] *)
| ValueError   (* [list.remove(x)]: x not in list; a vector of a wrong shape *)
| LinAlgError. (* the inverse of a singular matrix *)

Inductive result (A : Type) : Type :=
| Ok (a : A)
| Raise (e : exn).

Arguments Ok {A} a.
Arguments Raise {A} e.

Definition bind {A B : Type} (m : result A) (k : A -> result B) : result B :=
  match m with
  | Ok a => k a
  | Raise e => Raise e
  end.

Notation "'do' x <- m ;; k" := (bind m (fun x => k))
  (at level 10, x pattern, m at level 100, k at level 200).

(** ** Python lists *)

(** [l.remove(x)]: drops the first item equal to [x]; [None] stands for the
    [ValueError] of a missing item. *)
Fixpoint list_remove {A : Type} (eq_dec : forall a b : A, {a = b} + {a <> b})
    (x : A) (l : list A) : option (list A) :=
  match l with
  | [] => None
  | y :: l' =>
      if eq_dec x y then Some l'
      else match list_remove eq_dec x l' with
           | Some r => Some (y :: r)
           | None => None
           end
  end.

(** ** Numbers *)

Class Numeric (F : Type) : Type := {
  of_Z : Z -> F;                  (* the literals [0], [1000], [500.], ... *)
  fadd : F -> F -> F;
  fsub : F -> F -> F;
  fmul : F -> F -> F;
  fsqrt : F -> F;
  fltb : F -> F -> bool;          (* [a < b] *)
  fleb : F -> F -> bool;          (* [a <= b] *)
  finf : F;                       (* [np.inf] *)
  F_eq_dec : forall a b : F, {a = b} + {a <> b}
}.

(** [a > b] is [b < a]. *)
Definition fgtb {F : Type} `{Numeric F} (a b : F) : bool := fltb b a.

(** [numpy.linalg.norm] of a vector of two components. *)
Definition norm {F : Type} `{Numeric F} (v : F * F) : F :=
  fsqrt (fadd (fmul (fst v) (fst v)) (fmul (snd v) (snd v))).

(** ** Matrices (numpy arrays of two dimensions, by rows) *)

Definition matrix (F : Type) : Type := list (list F).

Section Matrices.
Context {F : Type} `{Numeric F}.

(** [np.eye(n)] *)
Definition eye (n : nat) : matrix F :=
  map (fun i => map (fun j => if Nat.eqb i j then of_Z 1 else of_Z 0)
                    (seq 0 n))
      (seq 0 n).

(** [m * c], entry by entry *)
Definition scale (m : matrix F) (c : F) : matrix F :=
  map (map (fun e => fmul e c)) m.

(** [scipy.linalg.block_diag(a, b)] *)
Definition block_diag (a b : matrix F) : matrix F :=
  let wa := length (hd [] a) in
  let wb := length (hd [] b) in
  map (fun row => row ++ repeat (of_Z 0) wb) a
  ++ map (fun row => repeat (of_Z 0) wa ++ row) b.
End Matrices.

(** ** Observations

    A measurement vector [(x, y, ...)]: two position entries, then any
    further entries. *)

Record Observation (F : Type) : Type := mkObservation {
  obs_x : F;            (* z[0] *)
  obs_y : F;            (* z[1] *)
  obs_rest : list F     (* z[2:] *)
}.

(** The whole vector, as [np.asarray(z).reshape([len(z), 1])] hands it to
    the filter. *)
Definition obs_vector {F : Type} (z : Observation F) : list F :=
  obs_x z :: obs_y z :: obs_rest z.

Definition Observation_eq_dec {F : Type} `{Numeric F}
    (a b : Observation F) : {a = b} + {a <> b}.
Proof.
  decide equality; try apply F_eq_dec.
  apply (list_eq_dec F_eq_dec).
Defined.

(** ** The Kalman filter object *)

Record KalmanFilter (F : Type) : Type := mkKalmanFilter {
  kf_x : F * F * F * F;   (* state mean (x, vx, y, vy), a 4x1 column *)
  kf_P : matrix F;        (* state covariance *)
  kf_u : F;               (* control input *)
  kf_F : matrix F;        (* state transition matrix *)
  kf_H : matrix F;        (* measurement matrix *)
  kf_R : matrix F;        (* measurement noise covariance *)
  kf_Q : matrix F         (* process noise covariance *)
}.

(** What the module takes from [filterpy]. *)
Class KalmanLib (F : Type) : Type := {
  kf_predict : KalmanFilter F -> KalmanFilter F;
  kf_update : KalmanFilter F -> list F -> KalmanFilter F;
  Q_discrete_white_noise : Z -> F -> F -> matrix F   (* dim, dt, var *)
}.

(** [filterpy]'s [update] with its exceptions: the updated filter, or the
    exception it raises. *)
Class KalmanRaises (F : Type) : Type := {
  kf_update_or_raise : KalmanFilter F -> list F -> result (KalmanFilter F)
}.

Section Filter.
Context {F : Type} `{Numeric F} `{KalmanLib F}.

Definition point_2d_kalman_filter (initial_state : F * F * F * F)
    (Q_std R_std : F) : KalmanFilter F :=
  let dt := of_Z 1 in
  let o := of_Z 0 in
  let i := of_Z 1 in
  let q := Q_discrete_white_noise 2 dt (fmul Q_std Q_std) in
  {| kf_x := initial_state;
     kf_P := scale (eye 4) (of_Z 500);
     kf_u := of_Z 0;
     kf_F := [[i; dt; o; o];
              [o; i; o; o];
              [o; o; i; dt];
              [o; o; o; i]];
     kf_H := [[i; o; o; o];
              [o; o; i; o]];
     kf_R := scale (eye 2) (fmul R_std R_std);
     kf_Q := block_diag q q |}.
End Filter.

(** ** [class Bounds2D] *)

Module Bounds2D.
Record t (F : Type) : Type := init {
  xmin : F;
  ymin : F;
  xmax : F;
  ymax : F
}.

Definition contains {F : Type} `{Numeric F} (self : t F) (x y : F) : bool :=
  (fleb (xmin self) x && fltb x (xmax self))
  && (fleb (ymin self) y && fltb y (ymax self)).
End Bounds2D.

(** ** [class TrackedPoint] *)

Module TrackedPoint.
Record t (F : Type) : Type := mk {
  id : Z;
  x : F;                      (* observed position *)
  y : F;
  vx : F;                     (* observed instantaneous velocity *)
  vy : F;
  boundary : Bounds2D.t F;
  lifetime : Z;
  n_tail_points : Z;
  n_coasts : Z;
  max_n_coasts : Z;
  coast_length : F;           (* coast distance so far *)
  max_coast_length : F;       (* allowable coast distance *)
  kf : KalmanFilter F;
  obs_tail : list (F * F);    (* deque: oldest first *)
  kf_tail : list (F * F)
}.

Section Methods.
Context {F : Type} `{Numeric F} `{KalmanLib F}.

(** Attribute assignments. *)
Definition set_xy (self : t F) (x' y' : F) : t F :=
  mk (id self) x' y' (vx self) (vy self) (boundary self) (lifetime self)
     (n_tail_points self) (n_coasts self) (max_n_coasts self)
     (coast_length self) (max_coast_length self) (kf self)
     (obs_tail self) (kf_tail self).

Definition set_lifetime (self : t F) (v : Z) : t F :=
  mk (id self) (x self) (y self) (vx self) (vy self) (boundary self) v
     (n_tail_points self) (n_coasts self) (max_n_coasts self)
     (coast_length self) (max_coast_length self) (kf self)
     (obs_tail self) (kf_tail self).

Definition set_n_coasts (self : t F) (v : Z) : t F :=
  mk (id self) (x self) (y self) (vx self) (vy self) (boundary self)
     (lifetime self) (n_tail_points self) v (max_n_coasts self)
     (coast_length self) (max_coast_length self) (kf self)
     (obs_tail self) (kf_tail self).

Definition set_coast_length (self : t F) (v : F) : t F :=
  mk (id self) (x self) (y self) (vx self) (vy self) (boundary self)
     (lifetime self) (n_tail_points self) (n_coasts self)
     (max_n_coasts self) v (max_coast_length self) (kf self)
     (obs_tail self) (kf_tail self).

Definition set_kf (self : t F) (v : KalmanFilter F) : t F :=
  mk (id self) (x self) (y self) (vx self) (vy self) (boundary self)
     (lifetime self) (n_tail_points self) (n_coasts self)
     (max_n_coasts self) (coast_length self) (max_coast_length self) v
     (obs_tail self) (kf_tail self).

Definition set_obs_tail (self : t F) (v : list (F * F)) : t F :=
  mk (id self) (x self) (y self) (vx self) (vy self) (boundary self)
     (lifetime self) (n_tail_points self) (n_coasts self)
     (max_n_coasts self) (coast_length self) (max_coast_length self)
     (kf self) v (kf_tail self).

Definition set_kf_tail (self : t F) (v : list (F * F)) : t F :=
  mk (id self) (x self) (y self) (vx self) (vy self) (boundary self)
     (lifetime self) (n_tail_points self) (n_coasts self)
     (max_n_coasts self) (coast_length self) (max_coast_length self)
     (kf self) (obs_tail self) v.

(** [__init__(self, state, sigma_Q, sigma_R)] *)
Definition init (state : F * F * F * F) (sigma_Q sigma_R : F) : t F :=
  let '(x0, vx0, y0, vy0) := state in
  {| id := 0;
     x := x0;
     y := y0;
     vx := vx0;
     vy := vy0;
     boundary := Bounds2D.init (of_Z 0) (of_Z 0) (of_Z 1000) (of_Z 1000);
     lifetime := 0;
     n_tail_points := 50;
     n_coasts := 0;
     max_n_coasts := 20;
     coast_length := of_Z 0;
     max_coast_length := of_Z 1000;
     kf := point_2d_kalman_filter (x0, vx0, y0, vy0) sigma_Q sigma_R;
     obs_tail := [];
     kf_tail := [] |}.

(** [self.kf.x[0, 0]] and the three other entries of the mean. *)
Definition kx (self : t F) : F :=
  let '(a, _, _, _) := kf_x (kf self) in a.
Definition kvx (self : t F) : F :=
  let '(_, b, _, _) := kf_x (kf self) in b.
Definition ky (self : t F) : F :=
  let '(_, _, c, _) := kf_x (kf self) in c.
Definition kvy (self : t F) : F :=
  let '(_, _, _, d) := kf_x (kf self) in d.

Definition update_tail (self : t F) : t F :=
  let self := set_kf_tail self (kf_tail self ++ [(kx self, ky self)]) in
  if (Z.of_nat (length (kf_tail self)) >? n_tail_points self)%Z
  then set_kf_tail self (tl (kf_tail self))
  else self.

Definition step (self : t F) (z : Observation F) : t F :=
  let self := set_lifetime self (lifetime self + 1) in
  let '(x', y') := (obs_x z, obs_y z) in
  let self := set_xy self x' y' in
  let self := set_obs_tail self (obs_tail self ++ [(x', y')]) in
  let self :=
    if (Z.of_nat (length (obs_tail self)) >? n_tail_points self)%Z
    then set_obs_tail self (tl (obs_tail self))
    else self in
  if negb (Bounds2D.contains (boundary self) x' y') then self
  else
    let self := set_kf self (kf_predict (kf self)) in
    let self := set_kf self (kf_update (kf self) (obs_vector z)) in
    update_tail self.

Definition coast (self : t F) : t F :=
  let self := set_kf self (kf_predict (kf self)) in
  let self := update_tail self in
  let next := (fadd (kx self) (kvx self), fadd (ky self) (kvy self)) in
  let self :=
    set_coast_length self
      (fadd (coast_length self)
            (norm (fsub (fst next) (x self), fsub (snd next) (y self)))) in
  let self := set_n_coasts self (n_coasts self + 1) in
  set_lifetime self (lifetime self + 1).

(** The distance the scan computes for one candidate:
    [norm(np.array(point)[0:2] - here)]. *)
Definition distance (here : F * F) (point : Observation F) : F :=
  norm (fsub (obs_x point) (fst here), fsub (obs_y point) (snd here)).

(** The [for] loop of [nearest_observation]. *)
Fixpoint nearest_scan (here : F * F) (z_candidates : list (Observation F))
    (nearest : option (Observation F)) (min_dist : F)
    : option (Observation F) * F :=
  match z_candidates with
  | [] => (nearest, min_dist)
  | point :: rest =>
      let dist := distance here point in
      if fltb dist min_dist
      then nearest_scan here rest (Some point) dist
      else nearest_scan here rest nearest min_dist
  end.

Definition nearest_observation (self : t F)
    (z_candidates : list (Observation F)) : option (Observation F) * F :=
  let nearest := None in
  let here := (kx self, ky self) in
  let min_dist := finf in
  nearest_scan here z_candidates nearest min_dist.

Definition in_bounds (self : t F) : bool :=
  Bounds2D.contains (boundary self) (x self) (y self).

Definition coasted_too_long (self : t F) : bool :=
  (n_coasts self >? max_n_coasts self)%Z.

Definition coasted_too_far (self : t F) : bool :=
  fgtb (coast_length self) (max_coast_length self).

Definition is_valid (self : t F) : bool :=
  if negb (in_bounds self) then false
  else if coasted_too_long self then false
  else if coasted_too_far self then false
  else true.
End Methods.
End TrackedPoint.

(** ** [TrackedPoint.step] with the exceptions of the filter

    The object as the call leaves it, and how the call ends: [Ok tt] when it
    returns, [Raise e] when [self.kf.update] raises [e].  An exception
    leaves the attributes written before it as they are. *)

Section StepRaising.
Context {F : Type} `{Numeric F} `{KalmanLib F} `{KalmanRaises F}.

Import TrackedPoint.

Definition step_raising (self : t F) (z : Observation F)
    : t F * result unit :=
  let self := set_lifetime self (lifetime self + 1) in
  let '(x', y') := (obs_x z, obs_y z) in
  let self := set_xy self x' y' in
  let self := set_obs_tail self (obs_tail self ++ [(x', y')]) in
  let self :=
    if (Z.of_nat (length (obs_tail self)) >? n_tail_points self)%Z
    then set_obs_tail self (tl (obs_tail self))
    else self in
  if negb (Bounds2D.contains (boundary self) x' y') then (self, Ok tt)
  else
    let self := set_kf self (kf_predict (kf self)) in
    match kf_update_or_raise (kf self) (obs_vector z) with
    | Raise e => (self, Raise e)
    | Ok k =>
        let self := set_kf self k in
        (update_tail self, Ok tt)
    end.
End StepRaising.

(** ** The store of track objects

    A reference names an object; every reference holds a [TrackedPoint].
    [tracked_objects] and [finished_tracks] are lists of references. *)

Definition ref : Type := nat.

Definition heap (F : Type) : Type := ref -> TrackedPoint.t F.

Definition write {F : Type} (h : heap F) (r : ref) (v : TrackedPoint.t F)
    : heap F :=
  fun r' => if Nat.eqb r' r then v else h r'.

(** The callback [track_adder(tracked_objects, observation)]: it may build
    objects and change the list it is handed. *)
Definition adder (F : Type) : Type :=
  heap F -> list ref -> Observation F -> heap F * list ref.

(** What a call leaves behind: the two lists it modified in place, the
    objects, and the returned list. *)
Record outcome (F : Type) : Type := mkOutcome {
  out_objects : heap F;
  out_tracked_objects : list ref;
  out_observations : list (Observation F);
  out_finished_tracks : list ref
}.

(** ** [match_tracks_to_observations] *)

(** A value together with the equation that names it, for the recursion
    below. *)
Definition inspect {A : Type} (a : A) : {b : A | a = b} :=
  exist _ a eq_refl.

Section Engine.
Context {F : Type} `{Numeric F} `{KalmanLib F}.

(** First loop: advance each tracker to the nearest available
    measurement, or coast.  The list of tracks is not changed by this
    loop, so the iterator visits its items in order. *)
Fixpoint matching (distance_threshold : F) (h : heap F)
    (tracks : list ref) (observations : list (Observation F))
    : result (heap F * list (Observation F)) :=
  match tracks with
  | [] => Ok (h, observations)
  | track :: rest =>
      let '(nearest_observation, distance) :=
        TrackedPoint.nearest_observation (h track) observations in
      if fltb distance distance_threshold then
        match nearest_observation with
        | None => Raise TypeError                 (* [step(None)]: [z[0]] *)
        | Some z =>
            let h := write h track (TrackedPoint.step (h track) z) in
            match list_remove Observation_eq_dec z observations with
            | None => Raise ValueError
            | Some observations =>
                let h :=
                  write h track (TrackedPoint.set_n_coasts (h track) 0) in
                matching distance_threshold h rest observations
            end
        end
      else
        let h := write h track (TrackedPoint.coast (h track)) in
        matching distance_threshold h rest observations
  end.

(** Second loop: [for t in tracked_objects] while the body removes items
    from that same list.  The list iterator is an index [i] into the
    current list: it stops when [i] is past the end, and yields item [i]
    otherwise, whatever was removed in between. *)
Equations? pruning (h : heap F) (min_lifetime : Z) (i : nat)
    (tracked_objects finished_tracks : list ref)
    : result (list ref * list ref)
    by wf (length tracked_objects - i) lt :=
  pruning h min_lifetime i tracked_objects finished_tracks
    with inspect (nth_error tracked_objects i) => {
    | exist _ None _ => Ok (tracked_objects, finished_tracks);
    | exist _ (Some t) _ with TrackedPoint.is_valid (h t) => {
      | true =>
          pruning h min_lifetime (S i) tracked_objects finished_tracks;
      | false
          with inspect (list_remove Nat.eq_dec t tracked_objects) => {
        | exist _ None _ => Raise ValueError;
        | exist _ (Some tracked_objects') _ =>
            pruning h min_lifetime (S i) tracked_objects'
              (if (TrackedPoint.lifetime (h t) >? min_lifetime)%Z
                  && (TrackedPoint.n_coasts (h t)
                      <? TrackedPoint.max_n_coasts (h t))%Z
               then finished_tracks ++ [t]
               else finished_tracks) } } }.
Proof.
  - assert (i < length tracked_objects)
      by (apply nth_error_Some; congruence).
    lia.
  - assert (i < length tracked_objects)
      by (apply nth_error_Some; congruence).
    assert (Hlen : forall l l' : list ref,
               list_remove Nat.eq_dec t l = Some l' ->
               length l = S (length l')).
    { induction l as [|y l IH]; simpl; intros l' Hl; [discriminate|].
      destruct (Nat.eq_dec t y); [congruence|].
      destruct (list_remove Nat.eq_dec t l); [|discriminate].
      injection Hl as <-. simpl. f_equal. now apply IH. }
    match goal with
    | E : list_remove _ _ _ = Some _ |- _ => apply Hlen in E; lia
    | E : Some _ = list_remove _ _ _ |- _ =>
        symmetry in E; apply Hlen in E; lia
    end.
Qed.

(** Third loop: the callback on every remaining measurement. *)
Fixpoint birth (track_adder : adder F) (h : heap F)
    (tracked_objects : list ref) (observations : list (Observation F))
    : heap F * list ref :=
  match observations with
  | [] => (h, tracked_objects)
  | observation :: rest =>
      let '(h, tracked_objects) :=
        track_adder h tracked_objects observation in
      birth track_adder h tracked_objects rest
  end.

Definition match_tracks_to_observations (h : heap F)
    (tracked_objects : list ref) (observations : list (Observation F))
    (track_adder : adder F)
    (distance_threshold : F) (max_n_coasts : Z) (min_lifetime : Z)
    : result (outcome F) :=
  let finished_tracks := [] in
  do (h, observations) <-
    matching distance_threshold h tracked_objects observations ;;
  do (tracked_objects, finished_tracks) <-
    pruning h min_lifetime 0 tracked_objects finished_tracks ;;
  let '(h, tracked_objects) :=
    birth track_adder h tracked_objects observations in
  let observations := [] in
  Ok (mkOutcome h tracked_objects observations finished_tracks).
End Engine.

(** ** Instance: IEEE binary64 numbers and a linear Kalman filter

    The numbers numpy computes with.  Equality of measurements is the
    equality of their bits. *)

Module Binary64.
Definition float_of_Z (z : Z) : float :=
  match z with
  | Z0 => PrimFloat.of_uint63 (Uint63.of_Z 0)
  | Zpos _ => PrimFloat.of_uint63 (Uint63.of_Z z)
  | Zneg p => PrimFloat.opp (PrimFloat.of_uint63 (Uint63.of_Z (Zpos p)))
  end.

Definition float_eq_dec (a b : float) : {a = b} + {a <> b} :=
  match PrimFloat.Leibniz.eqb a b as r
        return PrimFloat.Leibniz.eqb a b = r -> {a = b} + {a <> b} with
  | true => fun E => left (proj1 (FloatAxioms.Leibniz.eqb_spec a b) E)
  | false => fun E =>
      right (fun e : a = b =>
               eq_ind true (fun r => r = false -> False)
                      (fun d : true = false => diff_true_false d)
                      _ (eq_sym (proj2 (FloatAxioms.Leibniz.eqb_spec a b) e))
                      E)
  end eq_refl.

#[global] Instance numeric : Numeric float := {
  of_Z := float_of_Z;
  fadd := PrimFloat.add;
  fsub := PrimFloat.sub;
  fmul := PrimFloat.mul;
  fsqrt := PrimFloat.sqrt;
  fltb := PrimFloat.ltb;
  fleb := PrimFloat.leb;
  finf := PrimFloat.infinity;
  F_eq_dec := float_eq_dec
}.

(** Matrix arithmetic on lists of rows. *)
Definition dot (u v : list float) : float :=
  fold_left PrimFloat.add (map (fun p => PrimFloat.mul (fst p) (snd p))
                               (combine u v)) 0%float.

Definition transpose (m : matrix float) : matrix float :=
  map (fun j => map (fun row => nth j row 0%float) m)
      (seq 0 (length (hd [] m))).

Definition mmul (a b : matrix float) : matrix float :=
  map (fun row => map (fun col => dot row col) (transpose b)) a.

Definition mzip (f : float -> float -> float) (a b : matrix float)
    : matrix float :=
  map (fun p => map (fun q => f (fst q) (snd q)) (combine (fst p) (snd p)))
      (combine a b).

Definition column (v : float * float * float * float) : matrix float :=
  let '(a, b, c, d) := v in [[a]; [b]; [c]; [d]].

Definition entry (m : matrix float) (i j : nat) : float :=
  nth j (nth i m []) 0%float.

Definition of_column (m : matrix float) : float * float * float * float :=
  (entry m 0 0, entry m 1 0, entry m 2 0, entry m 3 0).

Definition inverse2 (m : matrix float) : matrix float :=
  let a := entry m 0 0 in
  let b := entry m 0 1 in
  let c := entry m 1 0 in
  let d := entry m 1 1 in
  let det := PrimFloat.sub (PrimFloat.mul a d) (PrimFloat.mul b c) in
  [[PrimFloat.div d det; PrimFloat.div (PrimFloat.opp b) det];
   [PrimFloat.div (PrimFloat.opp c) det; PrimFloat.div a det]].

(** Modelled from the spec: [filterpy]'s [predict], which is not part of
    the module.  Mean <- transition * mean; covariance <- transition *
    covariance * transition^T + process noise. *)
Definition predict (k : KalmanFilter float) : KalmanFilter float :=
  {| kf_x := of_column (mmul (kf_F k) (column (kf_x k)));
     kf_P := mzip PrimFloat.add
               (mmul (mmul (kf_F k) (kf_P k)) (transpose (kf_F k)))
               (kf_Q k);
     kf_u := kf_u k;
     kf_F := kf_F k;
     kf_H := kf_H k;
     kf_R := kf_R k;
     kf_Q := kf_Q k |}.

(** Modelled from the spec: [filterpy]'s [update], which is not part of
    the module.  The standard correction; of the measurement vector the
    two position entries are used. *)
Definition update (k : KalmanFilter float) (z : list float)
    : KalmanFilter float :=
  let zc := [[nth 0 z 0%float]; [nth 1 z 0%float]] in
  let innovation := mzip PrimFloat.sub zc (mmul (kf_H k) (column (kf_x k))) in
  let PHt := mmul (kf_P k) (transpose (kf_H k)) in
  let S := mzip PrimFloat.add (mmul (kf_H k) PHt) (kf_R k) in
  let K := mmul PHt (inverse2 S) in
  {| kf_x := of_column (mzip PrimFloat.add (column (kf_x k))
                                           (mmul K innovation));
     kf_P := mmul (mzip PrimFloat.sub (eye 4) (mmul K (kf_H k)))
                  (kf_P k);
     kf_u := kf_u k;
     kf_F := kf_F k;
     kf_H := kf_H k;
     kf_R := kf_R k;
     kf_Q := kf_Q k |}.

(** Modelled from the spec: [filterpy.common.Q_discrete_white_noise] for
    a position-velocity pair, the discretized constant-velocity noise
    block [[dt^4/4, dt^3/2], [dt^3/2, dt^2]] * var. *)
Definition white_noise (dim : Z) (dt var : float) : matrix float :=
  let dt2 := PrimFloat.mul dt dt in
  let dt3 := PrimFloat.mul dt2 dt in
  let dt4 := PrimFloat.mul dt3 dt in
  [[PrimFloat.mul (PrimFloat.div dt4 4%float) var;
    PrimFloat.mul (PrimFloat.div dt3 2%float) var];
   [PrimFloat.mul (PrimFloat.div dt3 2%float) var;
    PrimFloat.mul dt2 var]].

#[global] Instance filterpy : KalmanLib float := {
  kf_predict := predict;
  kf_update := update;
  Q_discrete_white_noise := white_noise
}.

(** The innovation covariance [H P H^T + R] of [update]. *)
Definition innovation_covariance (k : KalmanFilter float) : matrix float :=
  mzip PrimFloat.add
       (mmul (kf_H k) (mmul (kf_P k) (transpose (kf_H k)))) (kf_R k).

Definition singular2 (m : matrix float) : bool :=
  PrimFloat.eqb
    (PrimFloat.sub (PrimFloat.mul (entry m 0 0) (entry m 1 1))
                   (PrimFloat.mul (entry m 0 1) (entry m 1 0)))
    0%float.

(** Modelled from the spec: [filterpy]'s [update] with its failures;
    [filterpy] is a library outside the module.  The filter built by
    [point_2d_kalman_filter] has [dim_z = 2], and [update] takes a
    measurement of shape [(dim_z, 1)]: on a column of another length,
    shorter (spec 7, invalid measurement) or longer, it raises
    [ValueError].  It fails when the innovation covariance is not
    invertible (spec 4.1 and 7; [numpy.linalg.inv] raises [LinAlgError]).
    Otherwise it is [update]. *)
Definition update_or_raise (k : KalmanFilter float) (z : list float)
    : result (KalmanFilter float) :=
  if negb (Nat.eqb (length z) 2) then Raise ValueError
  else if singular2 (innovation_covariance k) then Raise LinAlgError
  else Ok (update k z).

#[global] Instance filterpy_raises : KalmanRaises float := {
  kf_update_or_raise := update_or_raise
}.

(** The order of binary64 numbers, read off their sign, exponent and
    mantissa: a key for every number but NaN, and the order of the keys. *)
Definition float_key (x : spec_float) : option (Z * Z * Z) :=
  match x with
  | S754_nan => None
  | S754_infinity true => Some (-2, 0, 0)%Z
  | S754_infinity false => Some (2, 0, 0)%Z
  | S754_zero _ => Some (0, 0, 0)%Z
  | S754_finite true m e => Some (-1, - e, - Zpos m)%Z
  | S754_finite false m e => Some (1, e, Zpos m)%Z
  end.

Definition key_lt (a b : Z * Z * Z) : Prop :=
  let '(a1, a2, a3) := a in
  let '(b1, b2, b3) := b in
  (a1 < b1 \/ (a1 = b1 /\ (a2 < b2 \/ (a2 = b2 /\ a3 < b3))))%Z.

(** A usual callback: a track at the measured position, at rest, stored
    in the first reference past the ones in the list. *)
Definition add_track (sigma_Q sigma_R : float) : adder float :=
  fun h tracked_objects observation =>
    let r := S (fold_right Nat.max 0 tracked_objects) in
    (write h r (TrackedPoint.init
                  (obs_x observation, 0%float, obs_y observation, 0%float)
                  sigma_Q sigma_R),
     tracked_objects ++ [r]).
End Binary64.

(** ** Instance: extended integers

    Exact arithmetic with one infinite value above every integer; the
    square root is the integer square root. *)

Module Exact.
Inductive xint : Type :=
| Fin (z : Z)
| Inf.

Definition lift2 (f : Z -> Z -> Z) (a b : xint) : xint :=
  match a, b with
  | Fin u, Fin v => Fin (f u v)
  | _, _ => Inf
  end.

Definition xsqrt (a : xint) : xint :=
  match a with
  | Fin u => Fin (Z.sqrt u)
  | Inf => Inf
  end.

Definition xltb (a b : xint) : bool :=
  match a, b with
  | Fin u, Fin v => (u <? v)%Z
  | Fin _, Inf => true
  | Inf, _ => false
  end.

Definition xleb (a b : xint) : bool :=
  match a, b with
  | Fin u, Fin v => (u <=? v)%Z
  | _, Inf => true
  | Inf, Fin _ => false
  end.

Definition xint_eq_dec (a b : xint) : {a = b} + {a <> b}.
Proof. decide equality. apply Z.eq_dec. Defined.

#[global] Instance numeric : Numeric xint := {
  of_Z := Fin;
  fadd := lift2 Z.add;
  fsub := lift2 Z.sub;
  fmul := lift2 Z.mul;
  fsqrt := xsqrt;
  fltb := xltb;
  fleb := xleb;
  finf := Inf;
  F_eq_dec := xint_eq_dec
}.
End Exact.

(** ** Assumptions on the numbers, and the words of the specification *)

(** [<] and [<=] order the numbers totally.  (True of the integers and
    the reals; of binary64 numbers when no NaN is compared.) *)
Class OrderLaws (F : Type) `{Numeric F} : Prop := {
  fleb_refl : forall a : F, fleb a a = true;
  fltb_fleb : forall a b : F, fltb a b = true -> fleb a b = true;
  fleb_total : forall a b : F, fltb a b = false -> fleb b a = true;
  fltb_fleb_trans :
    forall a b c : F, fltb a b = true -> fleb b c = true -> fltb a c = true
}.

Arguments OrderLaws F {_}.

(** Nothing is above infinity: [np.inf < a] is false. *)
Definition inf_is_top (F : Type) `{Numeric F} : Prop :=
  forall a : F, fltb finf a = false.

Arguments inf_is_top F {_}.

(** The laws of [<] that hold of IEEE numbers, NaN and the infinities
    included: it is a strict order; of two numbers [a < c], any number
    [b] below infinity is above [a] or below [c]; whatever is below
    something is below infinity; nothing is above infinity. *)
Class ComparisonLaws (F : Type) `{Numeric F} : Prop := {
  fltb_irrefl : forall a : F, fltb a a = false;
  fltb_trans :
    forall a b c : F, fltb a b = true -> fltb b c = true -> fltb a c = true;
  fltb_split :
    forall a b c : F,
      fltb a c = true -> fltb b finf = true ->
      fltb a b = true \/ fltb b c = true;
  fltb_below_inf : forall a b : F, fltb a b = true -> fltb a finf = true;
  fltb_inf_top : forall a : F, fltb finf a = false
}.

Arguments ComparisonLaws F {_}.

(** The Euclidean distance between the points [(px, py)] and [(qx, qy)],
    written out. *)
Abbreviation euclid px py qx qy :=
  (fsqrt (fadd (fmul (fsub px qx) (fsub px qx))
               (fmul (fsub py qy) (fsub py qy)))).

(** The Euclidean distance from the filtered position of a track to the
    position of an observation. *)
Abbreviation away t c :=
  (euclid (obs_x c) (obs_y c) (TrackedPoint.kx t) (TrackedPoint.ky t)).

(** A bounded FIFO receiving one entry: append it, and evict the oldest
    entry when the FIFO was at capacity. *)
Definition fifo_push {A : Type} (capacity : Z) (q : list A) (e : A) : list A :=
  if (Z.of_nat (length q) >=? capacity)%Z then tl (q ++ [e]) else q ++ [e].

(** A call on a track. *)
Inductive call (F : Type) : Type :=
| Step (z : Observation F)
| Coast.

Arguments Coast {F}.

Definition run_call {F : Type} `{Numeric F} `{KalmanLib F}
    (t : TrackedPoint.t F) (c : call F) : TrackedPoint.t F :=
  match c with
  | Step z => TrackedPoint.step t z
  | Coast => TrackedPoint.coast t
  end.

(** Both tails hold no more than the configured number of entries. *)
Definition tails_bounded {F : Type} (t : TrackedPoint.t F) : Prop :=
  (Z.of_nat (length (TrackedPoint.obs_tail t))
   <= TrackedPoint.n_tail_points t)%Z
  /\ (Z.of_nat (length (TrackedPoint.kf_tail t))
      <= TrackedPoint.n_tail_points t)%Z.

(** The measurements the tracks of a matching took, in order. *)
Definition consumed {A : Type} (assignment : list (option A)) : list A :=
  flat_map (fun o => match o with Some z => [z] | None => [] end) assignment.

Section Words.
Context {F : Type} `{Numeric F} `{KalmanLib F}.

(** The matching phase in the words of the specification: tracks in
    iteration order; a track whose nearest remaining observation is
    strictly nearer than the threshold steps with it, the observation
    leaves the pool and the coast counter is 0; any other track coasts.
    The assignment lists, track by track, the observation taken. *)
Inductive greedy (distance_threshold : F)
    : heap F -> list ref -> list (Observation F) ->
      list (option (Observation F)) ->
      heap F -> list (Observation F) -> Prop :=
| greedy_done h pool :
    greedy distance_threshold h [] pool [] h pool
| greedy_match h track rest pool z d pool1 h1 assignment h' pool' :
    TrackedPoint.nearest_observation (h track) pool = (Some z, d) ->
    fltb d distance_threshold = true ->
    list_remove Observation_eq_dec z pool = Some pool1 ->
    h1 track = TrackedPoint.set_n_coasts (TrackedPoint.step (h track) z) 0 ->
    (forall r, r <> track -> h1 r = h r) ->
    greedy distance_threshold h1 rest pool1 assignment h' pool' ->
    greedy distance_threshold h (track :: rest) pool
           (Some z :: assignment) h' pool'
| greedy_coast h track rest pool nz d h1 assignment h' pool' :
    TrackedPoint.nearest_observation (h track) pool = (nz, d) ->
    fltb d distance_threshold = false ->
    h1 track = TrackedPoint.coast (h track) ->
    (forall r, r <> track -> h1 r = h r) ->
    greedy distance_threshold h1 rest pool assignment h' pool' ->
    greedy distance_threshold h (track :: rest) pool
           (None :: assignment) h' pool'.

(** The matching phase with the nearest observation spelled out.  A
    track that steps takes item [i] of the pool: it is strictly nearer
    than the threshold, no item of the pool is strictly nearer than it,
    and every item before it whose distance is below infinity is strictly
    farther; that item leaves the pool and the coast counter is 0.  A
    track coasts when no item of the pool is strictly nearer than the
    threshold. *)
Inductive nearest_first (distance_threshold : F)
    : heap F -> list ref -> list (Observation F) ->
      list (option (Observation F)) ->
      heap F -> list (Observation F) -> Prop :=
| nearest_first_done h pool :
    nearest_first distance_threshold h [] pool [] h pool
| nearest_first_match h track rest pool i z h1 assignment h' pool' :
    nth_error pool i = Some z ->
    fltb (away (h track) z) distance_threshold = true ->
    (forall c, In c pool ->
               fltb (away (h track) c) (away (h track) z) = false) ->
    (forall j c, j < i -> nth_error pool j = Some c ->
                 fltb (away (h track) c) finf = true ->
                 fltb (away (h track) z) (away (h track) c) = true) ->
    h1 track = TrackedPoint.set_n_coasts (TrackedPoint.step (h track) z) 0 ->
    (forall r, r <> track -> h1 r = h r) ->
    nearest_first distance_threshold h1 rest
                  (firstn i pool ++ skipn (S i) pool) assignment h' pool' ->
    nearest_first distance_threshold h (track :: rest) pool
                  (Some z :: assignment) h' pool'
| nearest_first_coast h track rest pool h1 assignment h' pool' :
    (forall c, In c pool ->
               fltb (away (h track) c) distance_threshold = false) ->
    h1 track = TrackedPoint.coast (h track) ->
    (forall r, r <> track -> h1 r = h r) ->
    nearest_first distance_threshold h1 rest pool assignment h' pool' ->
    nearest_first distance_threshold h (track :: rest) pool
                  (None :: assignment) h' pool'.

(** The reading under which [coast] measures the coast distance from the
    last observed position to the new filtered position, the one the
    [predict] of this call produced. *)
Definition coast_adds_predicted_displacement (t : TrackedPoint.t F) : Prop :=
  let t' := TrackedPoint.coast t in
  TrackedPoint.coast_length t'
  = fadd (TrackedPoint.coast_length t)
         (euclid (TrackedPoint.kx t') (TrackedPoint.ky t')
                 (TrackedPoint.x t) (TrackedPoint.y t)).

(** The reading under which [nearest_observation] finds a candidate in
    every collection that has one: the first of the candidates at minimum
    distance, with that distance; no match and infinity on the empty
    collection. *)
Definition returns_the_nearest (t : TrackedPoint.t F)
    (z_candidates : list (Observation F)) : Prop :=
  match z_candidates with
  | [] => TrackedPoint.nearest_observation t z_candidates = (None, finf)
  | _ :: _ =>
      exists i c,
        nth_error z_candidates i = Some c
        /\ TrackedPoint.nearest_observation t z_candidates
           = (Some c, away t c)
        /\ (forall c', In c' z_candidates ->
                       fleb (away t c) (away t c') = true)
        /\ (forall j c', j < i -> nth_error z_candidates j = Some c' ->
                         fltb (away t c) (away t c') = true)
  end.

(** The test of the second loop that sends a removed track to the
    returned list. *)
Definition salvaged (h : heap F) (min_lifetime : Z) (t : ref) : bool :=
  (TrackedPoint.lifetime (h t) >? min_lifetime)%Z
  && (TrackedPoint.n_coasts (h t) <? TrackedPoint.max_n_coasts (h t))%Z.

(** A track was removed by the second loop when the list holds it fewer
    times after the loop than before. *)
Definition removed (before after : list ref) (t : ref) : Prop :=
  count_occ Nat.eq_dec after t < count_occ Nat.eq_dec before t.

(** The reading under which the limit on the coast counter of a finished
    track is the argument [max_n_coasts] of the call: a removed track is
    returned exactly when its lifetime is above [min_lifetime] and its
    coast counter is below [max_n_coasts]. *)
Definition finished_by_call_limit (h : heap F) (tracks : list ref)
    (pool : list (Observation F)) (track_adder : adder F)
    (distance_threshold : F) (max_n_coasts min_lifetime : Z) : Prop :=
  forall h1 pool1 kept out,
    matching distance_threshold h tracks pool = Ok (h1, pool1) ->
    pruning h1 min_lifetime 0 tracks [] = Ok (kept, out_finished_tracks out) ->
    match_tracks_to_observations h tracks pool track_adder
      distance_threshold max_n_coasts min_lifetime = Ok out ->
    forall t, removed tracks kept t ->
      (In t (out_finished_tracks out) <->
       (TrackedPoint.lifetime (h1 t) > min_lifetime)%Z
       /\ (TrackedPoint.n_coasts (h1 t) < max_n_coasts)%Z).
End Words.

(** ** Concrete frames *)

Module Scenario.
Import Binary64.

(** Two new tracks near the right edge of the default boundary, and one
    measurement for each just past that edge. *)
Definition edge_track : TrackedPoint.t float :=
  TrackedPoint.init (990, 0, 500, 0)%float 1%float 1%float.

Definition near_edge : heap float :=
  fun r =>
    if Nat.eqb r 0
    then edge_track
    else TrackedPoint.init (995, 0, 500, 0)%float 1%float 1%float.

Definition outside : Observation float :=
  mkObservation 1005%float 500%float [].

Definition past_edge : list (Observation float) :=
  [outside; mkObservation 1010%float 500%float []].

(** Calls on the first of these tracks: a measurement outside the
    boundary, a frame without measurement, a measurement inside. *)
Definition calls : list (call float) :=
  [Step outside; Coast; Step (mkObservation 980%float 500%float [])].

(** A track last observed outside the boundary that has lived 10 frames
    and coasted the last 5 of them. *)
Definition lost : heap float :=
  fun _ =>
    TrackedPoint.set_n_coasts
      (TrackedPoint.set_lifetime
         (TrackedPoint.init (1200, 0, 500, 0)%float 1%float 1%float) 10) 5.

(** A track at the origin of exact coordinates, and three candidates of
    which the first two are equally near. *)
Definition origin : TrackedPoint.t Exact.xint :=
  let o := Exact.Fin 0 in
  TrackedPoint.mk 0 o o o o
    (Bounds2D.init o o (Exact.Fin 1000) (Exact.Fin 1000))
    0 50 0 20 o (Exact.Fin 1000)
    (mkKalmanFilter (o, o, o, o) [] o [] [] [] [])
    [] [].

Definition candidates : list (Observation Exact.xint) :=
  [mkObservation (Exact.Fin 3) (Exact.Fin 4) [];
   mkObservation (Exact.Fin 0) (Exact.Fin 5) [];
   mkObservation (Exact.Fin 6) (Exact.Fin 8) []].

(** A new track at (10, 20) moving by (3, 4) a frame. *)
Definition moving : TrackedPoint.t float :=
  TrackedPoint.init (10, 3, 20, 4)%float 1%float 1%float.

(** One candidate so far away that the square of its distance is above
    the largest binary64 number. *)
Definition far_away : list (Observation float) :=
  [mkObservation 0x1p700%float 0%float []].

(** A new track in the middle of the default boundary, and a measurement
    at its position that carries a third entry. *)
Definition centre : TrackedPoint.t float :=
  TrackedPoint.init (500, 0, 500, 0)%float 1%float 1%float.

Definition with_extra : Observation float :=
  mkObservation 500%float 500%float [7%float].

(** Three candidates near the first track of [near_edge], the last two
    equally near. *)
Definition near : list (Observation float) :=
  [mkObservation 990%float 520%float [];
   mkObservation 1000%float 500%float [];
   mkObservation 990%float 510%float [];
   mkObservation 980%float 500%float []].
End Scenario.

(** ** Words for the further properties *)

(** [<] is irreflexive. *)
Definition lt_irreflexive (F : Type) `{Numeric F} : Prop :=
  forall a : F, fltb a a = false.

Arguments lt_irreflexive F {_}.

(** The number of frames without measurement among some calls. *)
Definition coasts_in {F : Type} (calls : list (call F)) : Z :=
  Z.of_nat
    (length (filter (fun c => match c with Coast => true | Step _ => false end)
                    calls)).

(** The positions observed by some calls, oldest first. *)
Definition observed_by {F : Type} (calls : list (call F)) : list (F * F) :=
  flat_map (fun c => match c with
                     | Step z => [(obs_x z, obs_y z)]
                     | Coast => []
                     end) calls.

(** The last [n] entries of a list (all of it when it is shorter). *)
Definition newest {A : Type} (n : Z) (l : list A) : list A :=
  skipn (length l - Z.to_nat n) l.

(** A measurement cut down to its two position entries. *)
Definition position_only {F : Type} (z : Observation F) : Observation F :=
  mkObservation (obs_x z) (obs_y z) [].

(** What the pruning loop leaves of a list without repeated tracks: a valid
    track stays; an invalid track goes, and the track after it stays
    without being looked at. *)
Fixpoint after_pruning (valid : ref -> bool) (l : list ref) : list ref :=
  match l with
  | [] => []
  | t :: rest =>
      if valid t then t :: after_pruning valid rest
      else match rest with
           | [] => []
           | u :: rest' => u :: after_pruning valid rest'
           end
  end.

(** What the pruning loop returns on such a list: the invalid tracks it
    looked at that pass the test [good]. *)
Fixpoint returned_by_pruning (valid good : ref -> bool) (l : list ref)
    : list ref :=
  match l with
  | [] => []
  | t :: rest =>
      if valid t then returned_by_pruning valid good rest
      else (if good t then [t] else [])
           ++ match rest with
              | [] => []
              | _ :: rest' => returned_by_pruning valid good rest'
              end
  end.

(** * Python lists *)

Section ListRemove.
Context {A : Type} (eq_dec : forall a b : A, {a = b} + {a <> b}).

Lemma list_remove_In (x : A) (l : list A) :
  In x l -> exists l', list_remove eq_dec x l = Some l'.
Proof.
  induction l as [|y l IH]; simpl; [intros []|].
  intros Hin. destruct (eq_dec x y) as [->|Hne]; [now exists l|].
  destruct Hin as [->|Hin]; [congruence|].
  destruct (IH Hin) as (l' & ->). now exists (y :: l').
Qed.

Lemma list_remove_perm (x : A) (l l' : list A) :
  list_remove eq_dec x l = Some l' -> Permutation l (x :: l').
Proof.
  revert l'. induction l as [|y l IH]; simpl; intros l' E; [discriminate|].
  destruct (eq_dec x y) as [->|Hne].
  - injection E as ->. reflexivity.
  - destruct (list_remove eq_dec x l) as [r|]; [|discriminate].
    injection E as <-. rewrite (IH r eq_refl). apply perm_swap.
Qed.

Lemma list_remove_count (x : A) (l l' : list A) :
  list_remove eq_dec x l = Some l' ->
  count_occ eq_dec l x = S (count_occ eq_dec l' x)
  /\ forall a, a <> x -> count_occ eq_dec l a = count_occ eq_dec l' a.
Proof.
  intros E. apply list_remove_perm in E.
  pose proof (proj1 (Permutation_count_occ eq_dec _ _) E) as Hc.
  split.
  - rewrite Hc. simpl. destruct (eq_dec x x); [reflexivity|congruence].
  - intros a Hne. rewrite Hc. simpl.
    destruct (eq_dec x a); [congruence|reflexivity].
Qed.
(** Removing an item whose first occurrence is at index [i] drops item
    [i]. *)
Lemma list_remove_first_index (x : A) (l : list A) (i : nat) :
  nth_error l i = Some x ->
  (forall j, j < i -> nth_error l j <> Some x) ->
  list_remove eq_dec x l = Some (firstn i l ++ skipn (S i) l).
Proof.
  revert i. induction l as [|y l IH]; intros i Hi Hfirst.
  - destruct i; discriminate.
  - simpl. destruct (eq_dec x y) as [->|Hne].
    + destruct i as [|i]; [reflexivity|].
      exfalso. apply (Hfirst 0); [lia|reflexivity].
    + destruct i as [|i]; [simpl in Hi; congruence|].
      simpl in Hi. rewrite (IH i Hi).
      * reflexivity.
      * intros j Hj. apply (Hfirst (S j)). lia.
Qed.
End ListRemove.

(** * Properties of a track *)

Section TrackProperties.
Context {F : Type} `{Numeric F} `{KalmanLib F}.

Import TrackedPoint.

(** The test [len(q) > n] after the append is the test "at capacity"
    before it. *)
Lemma append_then_evict {A : Type} (capacity : Z) (q : list A) (e : A) :
  (if (Z.of_nat (length (q ++ [e])) >? capacity)%Z
   then tl (q ++ [e]) else q ++ [e])
  = fifo_push capacity q e.
Proof.
  unfold fifo_push. rewrite length_app. simpl.
  destruct (Z.gtb_spec (Z.of_nat (length q + 1)) capacity);
    destruct (Z.geb_spec (Z.of_nat (length q)) capacity);
    try reflexivity; lia.
Qed.

Lemma fifo_push_length {A : Type} (capacity : Z) (q : list A) (e : A) :
  (Z.of_nat (length q) <= capacity)%Z ->
  (Z.of_nat (length (fifo_push capacity q e)) <= capacity)%Z.
Proof.
  unfold fifo_push. intros Hq.
  destruct (Z.geb_spec (Z.of_nat (length q)) capacity) as [Hfull|Hroom].
  - destruct q as [|a q]; simpl in *; [lia|].
    rewrite length_app. simpl. lia.
  - rewrite length_app. simpl. lia.
Qed.

Lemma update_tail_spec (t : t F) :
  update_tail t
  = set_kf_tail t (fifo_push (n_tail_points t) (kf_tail t) (kx t, ky t)).
Proof.
  unfold update_tail. destruct t; simpl.
  rewrite <- append_then_evict.
  match goal with |- context [if ?c then _ else _] => destruct c end;
    reflexivity.
Qed.

(** [step] in one piece: the attributes written before the boundary
    test, then the filter cycle when the position is inside. *)
Lemma step_unfold (t : t F) (z : Observation F) :
  step t z =
    let base :=
      mk (id t) (obs_x z) (obs_y z) (vx t) (vy t) (boundary t)
         (lifetime t + 1) (n_tail_points t) (n_coasts t) (max_n_coasts t)
         (coast_length t) (max_coast_length t) (kf t)
         (fifo_push (n_tail_points t) (obs_tail t) (obs_x z, obs_y z))
         (kf_tail t) in
    if Bounds2D.contains (boundary t) (obs_x z) (obs_y z)
    then update_tail
           (set_kf base (kf_update (kf_predict (kf t)) (obs_vector z)))
    else base.
Proof.
  unfold step. destruct t; simpl.
  rewrite <- append_then_evict.
  match goal with |- context [if (?a >? ?b)%Z then _ else _] =>
    destruct (a >? b)%Z end; simpl;
  match goal with |- context [Bounds2D.contains ?b ?u ?v] =>
    destruct (Bounds2D.contains b u v) end; reflexivity.
Qed.

(** [coast] in one piece. *)
Lemma coast_unfold (t : t F) :
  coast t =
    let k := kf_predict (kf t) in
    let '(px, pvx, py, pvy) := kf_x k in
    mk (id t) (x t) (y t) (vx t) (vy t) (boundary t)
       (lifetime t + 1) (n_tail_points t) (n_coasts t + 1) (max_n_coasts t)
       (fadd (coast_length t)
             (norm (fsub (fadd px pvx) (x t), fsub (fadd py pvy) (y t))))
       (max_coast_length t) k (obs_tail t)
       (fifo_push (n_tail_points t) (kf_tail t) (px, py)).
Proof.
  cbv zeta. destruct (kf_x (kf_predict (kf t))) as [[[px pvx] py] pvy] eqn:Ek.
  unfold coast. rewrite update_tail_spec.
  destruct t; unfold kx, kvx, ky, kvy; simpl in *.
  rewrite Ek. reflexivity.
Qed.

(** C4, amended.  [coast()] runs one [predict] and no [update]; pushes
    the new filtered (x, y) on the filtered-position FIFO; adds to the
    coast distance the Euclidean distance from the last observed position
    to the point one velocity step beyond the new filtered position, that
    is (kx + kvx, ky + kvy) read after the [predict]; adds 1 to the coast
    counter and 1 to the lifetime.  The observed position and the
    observed-position FIFO stay as they were. *)
Theorem coast_effect (t : t F) :
  let t' := coast t in
  kf t' = kf_predict (kf t)
  /\ kf_tail t' = fifo_push (n_tail_points t) (kf_tail t) (kx t', ky t')
  /\ coast_length t'
     = fadd (coast_length t)
            (euclid (fadd (kx t') (kvx t')) (fadd (ky t') (kvy t'))
                    (x t) (y t))
  /\ n_coasts t' = (n_coasts t + 1)%Z
  /\ lifetime t' = (lifetime t + 1)%Z
  /\ (x t', y t') = (x t, y t)
  /\ obs_tail t' = obs_tail t.
Proof.
  cbv zeta. rewrite coast_unfold. cbv zeta. unfold kx, kvx, ky, kvy.
  destruct (kf_x (kf_predict (kf t))) as [[[px pvx] py] pvy] eqn:Ek.
  simpl. rewrite Ek. repeat split; reflexivity.
Qed.

Section Raising.
Context `{KalmanRaises F}.

(** Outside the boundary [step] does not call the filter, and returns. *)
Lemma step_raising_outside (t : t F) (z : Observation F) :
  Bounds2D.contains (boundary t) (obs_x z) (obs_y z) = false ->
  step_raising t z = (step t z, Ok tt).
Proof.
  intros Hout. unfold step_raising, step. destruct t; simpl in *.
  match goal with |- context [if (?a >? ?b)%Z then _ else _] =>
    destruct (a >? b)%Z end; simpl; rewrite Hout; reflexivity.
Qed.

(** Inside the boundary, when [update] returns, [step] returns and is the
    predict-correct cycle. *)
Lemma step_raising_returns (t : t F) (z : Observation F) :
  kf_update_or_raise (kf_predict (kf t)) (obs_vector z)
  = Ok (kf_update (kf_predict (kf t)) (obs_vector z)) ->
  step_raising t z = (step t z, Ok tt).
Proof.
  intros Hok. unfold step_raising, step. destruct t; simpl in *.
  match goal with |- context [if (?a >? ?b)%Z then _ else _] =>
    destruct (a >? b)%Z end; simpl;
  match goal with |- context [Bounds2D.contains ?b ?u ?v] =>
    destruct (Bounds2D.contains b u v) end; simpl;
  try rewrite Hok; reflexivity.
Qed.

(** Inside the boundary, when [update] raises, [step] raises after the
    lifetime, the observed position, the observed-position FIFO and the
    [predict]: nothing is pushed on the filtered-position FIFO. *)
Lemma step_raising_raises (t : t F) (z : Observation F) (e : exn) :
  Bounds2D.contains (boundary t) (obs_x z) (obs_y z) = true ->
  kf_update_or_raise (kf_predict (kf t)) (obs_vector z) = Raise e ->
  step_raising t z
  = (mk (id t) (obs_x z) (obs_y z) (vx t) (vy t) (boundary t)
        (lifetime t + 1) (n_tail_points t) (n_coasts t) (max_n_coasts t)
        (coast_length t) (max_coast_length t) (kf_predict (kf t))
        (fifo_push (n_tail_points t) (obs_tail t) (obs_x z, obs_y z))
        (kf_tail t),
     Raise e).
Proof.
  intros Hin Hraise. unfold step_raising. destruct t; simpl in *.
  rewrite <- append_then_evict.
  match goal with |- context [if (?a >? ?b)%Z then _ else _] =>
    destruct (a >? b)%Z end; simpl; rewrite Hin; simpl;
  rewrite Hraise; reflexivity.
Qed.
End Raising.

(** C7.  [is_valid()] holds exactly when the last observed position is in
    the half-open boundary rectangle, the coast counter is not above its
    threshold and the coast distance is not above its threshold. *)
Theorem is_valid_iff (t : t F) :
  is_valid t = true <->
  ((fleb (Bounds2D.xmin (boundary t)) (x t) = true
    /\ fltb (x t) (Bounds2D.xmax (boundary t)) = true)
   /\ (fleb (Bounds2D.ymin (boundary t)) (y t) = true
       /\ fltb (y t) (Bounds2D.ymax (boundary t)) = true))
  /\ ~ (n_coasts t > max_n_coasts t)%Z
  /\ fgtb (coast_length t) (max_coast_length t) = false.
Proof.
  unfold is_valid, in_bounds, coasted_too_long, Bounds2D.contains.
  rewrite <- !andb_true_iff.
  destruct (_ && _ && _); simpl.
  - destruct (Z.gtb_spec (n_coasts t) (max_n_coasts t)).
    + split; [discriminate|]. intros (_ & Hn & _). lia.
    + unfold coasted_too_far.
      destruct (fgtb (coast_length t) (max_coast_length t)).
      * split; [discriminate|]. intros (_ & _ & Hf). discriminate.
      * split; [|reflexivity]. intros _. repeat split; lia.
  - split; [discriminate|]. intros (Hb & _). discriminate.
Qed.

(** C10.  A [step(z)] whose position is outside the boundary changes the
    lifetime, the stored observed position and the observed-position
    FIFO, and nothing else: filter mean and covariance, filtered-position
    FIFO, coast counter, coast distance and observed velocity are as
    before. *)
Theorem step_outside_frame (t : t F) (z : Observation F) :
  Bounds2D.contains (boundary t) (obs_x z) (obs_y z) = false ->
  step t z =
    mk (id t) (obs_x z) (obs_y z) (vx t) (vy t) (boundary t)
       (lifetime t + 1) (n_tail_points t) (n_coasts t) (max_n_coasts t)
       (coast_length t) (max_coast_length t) (kf t)
       (fifo_push (n_tail_points t) (obs_tail t) (obs_x z, obs_y z))
       (kf_tail t)
  /\ kf_x (kf (step t z)) = kf_x (kf t)
  /\ kf_P (kf (step t z)) = kf_P (kf t)
  /\ kf_tail (step t z) = kf_tail t
  /\ n_coasts (step t z) = n_coasts t
  /\ coast_length (step t z) = coast_length t
  /\ (vx (step t z), vy (step t z)) = (vx t, vy t).
Proof.
  intros Hout. rewrite step_unfold. cbv zeta. rewrite Hout. simpl.
  repeat split; reflexivity.
Qed.

Lemma step_keeps_bound (t : t F) (z : Observation F) :
  tails_bounded t -> tails_bounded (step t z) /\
                     n_tail_points (step t z) = n_tail_points t.
Proof.
  intros [Ho Hk]. unfold tails_bounded. rewrite step_unfold. cbv zeta.
  destruct (Bounds2D.contains (boundary t) (obs_x z) (obs_y z)).
  - rewrite update_tail_spec. simpl.
    split; [split|reflexivity]; now apply fifo_push_length.
  - simpl. split; [split|reflexivity];
      [now apply fifo_push_length|exact Hk].
Qed.

Lemma coast_keeps_bound (t : t F) :
  tails_bounded t -> tails_bounded (coast t) /\
                     n_tail_points (coast t) = n_tail_points t.
Proof.
  intros [Ho Hk]. unfold tails_bounded. rewrite coast_unfold. cbv zeta.
  destruct (kf_x (kf_predict (kf t))) as [[[px pvx] py] pvy].
  simpl.
  split; [split; [exact Ho|now apply fifo_push_length]|reflexivity].
Qed.

(** C9.  On a track whose two FIFOs are within the configured length --
    a new track, whose FIFOs are empty, is one -- no sequence of [step]
    and [coast] calls brings either FIFO above that length, and the
    configured length itself is not changed by the calls. *)
Theorem tails_stay_bounded (calls : list (call F)) (t : t F) :
  tails_bounded t ->
  tails_bounded (fold_left run_call calls t)
  /\ n_tail_points (fold_left run_call calls t) = n_tail_points t.
Proof.
  revert t. induction calls as [|c calls IH]; intros t Hb; simpl.
  - split; [exact Hb|reflexivity].
  - assert (Hc : tails_bounded (run_call t c)
                 /\ n_tail_points (run_call t c) = n_tail_points t).
    { destruct c; simpl;
        [now apply step_keeps_bound|now apply coast_keeps_bound]. }
    destruct Hc as [Hc En].
    destruct (IH _ Hc) as [Hfin En']. split; [exact Hfin|congruence].
Qed.
End TrackProperties.

(** * The nearest observation *)

Section Nearest.
Context {F : Type} `{Numeric F}.

Import TrackedPoint.

(** The scan keeps a candidate once it has one. *)
Lemma nearest_scan_keeps (here : F * F) (l : list (Observation F))
    (c : Observation F) (m : F) :
  exists c' d, nearest_scan here l (Some c) m = (Some c', d).
Proof.
  revert c m. induction l as [|p l IH]; intros c m; simpl.
  - now exists c, m.
  - destruct (fltb (distance here p) m); apply IH.
Qed.

(** Without a candidate at the end, nothing was ever below the bound. *)
Lemma nearest_scan_none (here : F * F) (l : list (Observation F))
    (n : option (Observation F)) (m d : F) :
  nearest_scan here l n m = (None, d) -> n = None /\ d = m.
Proof.
  revert n m. induction l as [|p l IH]; intros n m; simpl.
  - intros E. injection E as -> ->. now split.
  - destruct (fltb (distance here p) m).
    + intros E.
      destruct (nearest_scan_keeps here l p (distance here p))
        as (c' & d' & E').
      congruence.
    + apply IH.
Qed.

(** The candidate returned is the one the scan started with or an item
    of the list. *)
Lemma nearest_scan_In (here : F * F) (l : list (Observation F))
    (n : option (Observation F)) (m d : F) (z : Observation F) :
  nearest_scan here l n m = (Some z, d) -> n = Some z \/ In z l.
Proof.
  revert n m. induction l as [|p l IH]; intros n m; simpl.
  - intros E. injection E as -> _. now left.
  - destruct (fltb (distance here p) m); intros E; apply IH in E.
    + destruct E as [E|E]; [injection E as ->; right; now left|].
      right; now right.
    + destruct E as [E|E]; [now left|right; now right].
Qed.

Section Compared.
Context `{!ComparisonLaws F}.

(** The invariant of the scan once it holds a candidate: after the items
    [seen] the candidate is item [i] of them, at the recorded distance,
    which is below infinity; nothing seen is strictly nearer, and what was
    seen before it below infinity is strictly farther. *)
Lemma nearest_scan_first_minimum (here : F * F)
    (l seen : list (Observation F)) (i : nat) (c : Observation F) :
  nth_error seen i = Some c ->
  fltb (distance here c) finf = true ->
  (forall c', In c' seen ->
              fltb (distance here c') (distance here c) = false) ->
  (forall j c', j < i -> nth_error seen j = Some c' ->
                fltb (distance here c') finf = true ->
                fltb (distance here c) (distance here c') = true) ->
  exists i' c',
    nearest_scan here l (Some c) (distance here c)
    = (Some c', distance here c')
    /\ nth_error (seen ++ l) i' = Some c'
    /\ fltb (distance here c') finf = true
    /\ (forall c'', In c'' (seen ++ l) ->
                    fltb (distance here c'') (distance here c') = false)
    /\ (forall j c'', j < i' -> nth_error (seen ++ l) j = Some c'' ->
                      fltb (distance here c'') finf = true ->
                      fltb (distance here c') (distance here c'') = true).
Proof.
  revert seen i c.
  induction l as [|p l IH]; intros seen i c Hi Hfin Hmin Hfirst.
  - exists i, c. rewrite app_nil_r. simpl. auto.
  - simpl.
    assert (Hlt : i < length seen)
      by (apply nth_error_Some; congruence).
    replace (seen ++ p :: l) with ((seen ++ [p]) ++ l)
      by (rewrite <- app_assoc; reflexivity).
    destruct (fltb (distance here p) (distance here c)) eqn:Hp.
    + apply (@IH (seen ++ [p]) (length seen) p).
      * rewrite nth_error_app2 by lia. now rewrite Nat.sub_diag.
      * now apply fltb_below_inf with (distance here c).
      * intros c' Hin. apply in_app_or in Hin.
        destruct Hin as [Hin|[<-|[]]]; [|apply fltb_irrefl].
        destruct (fltb (distance here c') (distance here p)) eqn:E;
          [|reflexivity].
        rewrite <- (Hmin c' Hin). symmetry.
        now apply fltb_trans with (distance here p).
      * intros j c' Hj Hnth Hc'. rewrite nth_error_app1 in Hnth by lia.
        destruct (fltb_split _ (distance here c') _ Hp Hc') as [E|E];
          [exact E|].
        rewrite (Hmin c') in E; [discriminate|].
        eapply nth_error_In; eauto.
    + apply (@IH (seen ++ [p]) i c).
      * rewrite nth_error_app1 by lia. exact Hi.
      * exact Hfin.
      * intros c' Hin. apply in_app_or in Hin.
        destruct Hin as [Hin|[<-|[]]]; [now apply Hmin|exact Hp].
      * intros j c' Hj Hnth. rewrite nth_error_app1 in Hnth by lia.
        eauto.
Qed.

(** The scan from its first state, where it holds no candidate and the
    bound is infinity. *)
Lemma nearest_scan_from_nothing (here : F * F)
    (l seen : list (Observation F)) :
  (forall c', In c' seen -> fltb (distance here c') finf = false) ->
  match nearest_scan here l None finf with
  | (None, d) =>
      d = finf
      /\ forall c', In c' (seen ++ l) -> fltb (distance here c') finf = false
  | (Some c, d) =>
      d = distance here c
      /\ fltb d finf = true
      /\ exists i,
          nth_error (seen ++ l) i = Some c
          /\ (forall c', In c' (seen ++ l) ->
                         fltb (distance here c') d = false)
          /\ (forall j c', j < i -> nth_error (seen ++ l) j = Some c' ->
                           fltb (distance here c') finf = true ->
                           fltb d (distance here c') = true)
  end.
Proof.
  revert seen. induction l as [|p l IH]; intros seen Hseen.
  - simpl. rewrite app_nil_r. now split.
  - simpl.
    replace (seen ++ p :: l) with ((seen ++ [p]) ++ l)
      by (rewrite <- app_assoc; reflexivity).
    destruct (fltb (distance here p) finf) eqn:Hp.
    + destruct (@nearest_scan_first_minimum here l (seen ++ [p])
                  (length seen) p)
        as (i' & c' & E & Hi' & Hfin & Hmin & Hfirst).
      * rewrite nth_error_app2 by lia. now rewrite Nat.sub_diag.
      * exact Hp.
      * intros c' Hin. apply in_app_or in Hin.
        destruct Hin as [Hin|[<-|[]]]; [|apply fltb_irrefl].
        destruct (fltb (distance here c') (distance here p)) eqn:E;
          [|reflexivity].
        rewrite <- (Hseen c' Hin). symmetry.
        now apply fltb_below_inf with (distance here p).
      * intros j c' Hj Hnth Hc'. rewrite nth_error_app1 in Hnth by lia.
        rewrite (Hseen c') in Hc'; [discriminate|].
        eapply nth_error_In; eauto.
      * rewrite E. split; [reflexivity|]. split; [exact Hfin|].
        exists i'. auto.
    + apply IH. intros c' Hin. apply in_app_or in Hin.
      destruct Hin as [Hin|[<-|[]]]; [now apply Hseen|exact Hp].
Qed.

(** The first of the nearest candidates below infinity is one item. *)
Lemma first_nearest_unique (d : Observation F -> F)
    (l : list (Observation F)) (i i' : nat) (c c' : Observation F) :
  nth_error l i = Some c -> nth_error l i' = Some c' ->
  fltb (d c) finf = true -> fltb (d c') finf = true ->
  (forall u, In u l -> fltb (d u) (d c) = false) ->
  (forall u, In u l -> fltb (d u) (d c') = false) ->
  (forall j u, j < i -> nth_error l j = Some u ->
               fltb (d u) finf = true -> fltb (d c) (d u) = true) ->
  (forall j u, j < i' -> nth_error l j = Some u ->
               fltb (d u) finf = true -> fltb (d c') (d u) = true) ->
  i = i' /\ c = c'.
Proof.
  intros Hi Hi' Hf Hf' Hm Hm' Hb Hb'.
  destruct (Nat.lt_total i i') as [L|[E|L]].
  - specialize (Hb' i c L Hi Hf).
    rewrite (Hm c') in Hb'; [discriminate|eapply nth_error_In; eauto].
  - subst i'. split; [reflexivity|congruence].
  - specialize (Hb i' c' L Hi' Hf').
    rewrite (Hm' c) in Hb; [discriminate|eapply nth_error_In; eauto].
Qed.

End Compared.
End Nearest.

(** * The three loops of the engine *)

Section EngineLoops.
Context {F : Type} `{Numeric F} `{KalmanLib F}.

Lemma write_same (h : heap F) (r : ref) (v : TrackedPoint.t F) :
  write h r v r = v.
Proof. unfold write. now rewrite Nat.eqb_refl. Qed.

Lemma write_other (h : heap F) (r r' : ref) (v : TrackedPoint.t F) :
  r' <> r -> write h r v r' = h r'.
Proof.
  intros Hne. unfold write.
  destruct (Nat.eqb_spec r' r); [contradiction|reflexivity].
Qed.

(** The matching loop returns and is the greedy matching; what it took
    and what it left make up the pool. *)
Lemma matching_greedy (distance_threshold : F) :
  inf_is_top F ->
  forall (tracks : list ref) (h : heap F) (pool : list (Observation F)),
  exists h' pool' assignment,
    matching distance_threshold h tracks pool = Ok (h', pool')
    /\ greedy distance_threshold h tracks pool assignment h' pool'
    /\ Permutation pool (consumed assignment ++ pool')
    /\ length assignment = length tracks.
Proof.
  intros Htop. induction tracks as [|track rest IH]; intros h pool.
  - exists h, pool, []. simpl. repeat split; [constructor|reflexivity].
  - simpl.
    destruct (TrackedPoint.nearest_observation (h track) pool)
      as [nearest d] eqn:En.
    destruct (fltb d distance_threshold) eqn:Ed.
    + destruct nearest as [z|].
      * assert (Hin : In z pool).
        { apply nearest_scan_In in En. destruct En; [discriminate|auto]. }
        destruct (list_remove_In Observation_eq_dec z pool Hin)
          as (pool1 & Er).
        rewrite Er.
        set (h1 := write (write h track (TrackedPoint.step (h track) z))
                         track _).
        destruct (IH h1 pool1) as (h' & pool' & asg & E & G & P & L).
        exists h', pool', (Some z :: asg).
        split; [exact E|]. split; [|split].
        -- eapply greedy_match with (h1 := h1); eauto.
           ++ subst h1. now rewrite !write_same.
           ++ intros r Hr. subst h1. now rewrite !write_other.
        -- simpl. rewrite (list_remove_perm _ _ _ Er).
           now apply perm_skip.
        -- simpl. now rewrite L.
      * apply nearest_scan_none in En. destruct En as [_ ->].
        rewrite Htop in Ed. discriminate.
    + set (h1 := write h track (TrackedPoint.coast (h track))).
      destruct (IH h1 pool) as (h' & pool' & asg & E & G & P & L).
      exists h', pool', (None :: asg).
      split; [exact E|]. split; [|split].
      * eapply greedy_coast with (h1 := h1); eauto.
        -- subst h1. now rewrite write_same.
        -- intros r Hr. subst h1. now rewrite write_other.
      * exact P.
      * simpl. now rewrite L.
Qed.

(** The birth loop is the callback folded over the observations. *)
Lemma birth_fold (track_adder : adder F) (pool : list (Observation F))
    (h : heap F) (tracked : list ref) :
  birth track_adder h tracked pool
  = fold_left (fun st o => track_adder (fst st) (snd st) o) pool
              (h, tracked).
Proof.
  revert h tracked. induction pool as [|o pool IH]; intros h tracked; simpl.
  - reflexivity.
  - destruct (track_adder h tracked o) as [h1 tracked1] eqn:E.
    rewrite IH. reflexivity.
Qed.

(** With a callback that appends one track, the birth loop appends one
    track for each observation. *)
Lemma birth_appends (track_adder : adder F) :
  (forall h l o, exists r, snd (track_adder h l o) = l ++ [r]) ->
  forall (pool : list (Observation F)) (h : heap F) (tracked : list ref),
  exists born,
    snd (birth track_adder h tracked pool) = tracked ++ born
    /\ length born = length pool.
Proof.
  intros Hadd. induction pool as [|o pool IH]; intros h tracked; simpl.
  - exists []. now rewrite app_nil_r.
  - destruct (Hadd h tracked o) as (r & Er).
    destruct (track_adder h tracked o) as [h1 tracked1]. simpl in Er.
    subst tracked1.
    destruct (IH h1 (tracked ++ [r])) as (born & E & L).
    exists (r :: born). rewrite E, <- app_assoc. simpl. now rewrite L.
Qed.

(** One turn of the pruning loop. *)
Lemma pruning_turn (h : heap F) (min_lifetime : Z) (i : nat)
    (tracked finished : list ref) :
  pruning h min_lifetime i tracked finished =
  match nth_error tracked i with
  | None => Ok (tracked, finished)
  | Some t =>
      if TrackedPoint.is_valid (h t)
      then pruning h min_lifetime (S i) tracked finished
      else match list_remove Nat.eq_dec t tracked with
           | None => Raise ValueError
           | Some tracked' =>
               pruning h min_lifetime (S i) tracked'
                 (if salvaged h min_lifetime t
                  then finished ++ [t] else finished)
           end
  end.
Proof.
  funelim (pruning h min_lifetime i tracked finished).
  - now rewrite e.
  - now rewrite e, Heq.
  - now rewrite e, Heq, e0.
  - now rewrite e, Heq, e0.
Qed.

(** Two distinct tracks, the first of them invalid: the loop removes the
    first and ends without looking at the second. *)
Lemma pruning_skips_successor (h : heap F) (min_lifetime : Z) (a b : ref) :
  a <> b ->
  TrackedPoint.is_valid (h a) = false ->
  pruning h min_lifetime 0 [a; b] []
  = Ok ([b], if salvaged h min_lifetime a then [a] else []).
Proof.
  intros Hab Ha.
  rewrite pruning_turn. simpl. rewrite Ha.
  destruct (Nat.eq_dec a a) as [_|Hne]; [|congruence].
  rewrite pruning_turn. simpl. reflexivity.
Qed.
(** The pruning loop returns.  It only removes, it removes only invalid
    tracks, and each removal of a salvaged track adds it once to the
    finished tracks. *)
Lemma pruning_spec (h : heap F) (min_lifetime : Z) (i : nat)
    (tracked finished : list ref) :
  exists kept fin,
    pruning h min_lifetime i tracked finished = Ok (kept, fin)
    /\ (forall a, count_occ Nat.eq_dec kept a
                  <= count_occ Nat.eq_dec tracked a)
    /\ (forall a, count_occ Nat.eq_dec kept a
                  < count_occ Nat.eq_dec tracked a ->
                  TrackedPoint.is_valid (h a) = false)
    /\ (forall a, count_occ Nat.eq_dec fin a
                  = count_occ Nat.eq_dec finished a
                    + if salvaged h min_lifetime a
                      then count_occ Nat.eq_dec tracked a
                           - count_occ Nat.eq_dec kept a
                      else 0).
Proof.
  funelim (pruning h min_lifetime i tracked finished); unfold ref in *.
  - exists tracked_objects, finished_tracks.
    repeat split; intros; try lia.
    destruct (salvaged h min_lifetime a); clear; lia.
  - exact H1.
  - destruct H1 as (kept & fin & E & Hle & Hinv & Hcnt).
    exists kept, fin. split; [exact E|].
    destruct (list_remove_count Nat.eq_dec t tracked_objects e0)
      as [Ht Hother].
    fold (salvaged h min_lifetime t) in Hcnt.
    repeat split; intros a; specialize (Hle a); specialize (Hinv a);
      specialize (Hcnt a);
      (destruct (Nat.eq_dec a t) as [->|Hne];
       [|specialize (Hother a Hne)]).
    + lia.
    + lia.
    + intros _. exact Heq.
    + intros Hlt. apply Hinv. lia.
    + rewrite Hcnt. destruct (salvaged h min_lifetime t); [|lia].
      rewrite count_occ_app. simpl.
      destruct (Nat.eq_dec t t); [lia|congruence].
    + rewrite Hcnt, Hother.
      replace (count_occ Nat.eq_dec
                 (if salvaged h min_lifetime t
                  then finished_tracks ++ [t] else finished_tracks) a)
        with (count_occ Nat.eq_dec finished_tracks a); [reflexivity|].
      destruct (salvaged h min_lifetime t); [|reflexivity].
      rewrite count_occ_app. simpl.
      destruct (Nat.eq_dec t a); [congruence|lia].
  - exfalso.
    destruct (list_remove_In Nat.eq_dec t tracked_objects) as (l' & E').
    + eapply nth_error_In; eauto.
    + congruence.
Qed.
End EngineLoops.

(** * The engine *)

Section EngineProperties.
Context {F : Type} `{Numeric F} `{KalmanLib F}.

(** A call runs its three loops to the end and returns. *)
Lemma engine_phases (h : heap F) (tracks : list ref)
    (pool : list (Observation F)) (track_adder : adder F)
    (distance_threshold : F) (max_n_coasts min_lifetime : Z) :
  inf_is_top F ->
  exists h1 pool1 kept fin,
    matching distance_threshold h tracks pool = Ok (h1, pool1)
    /\ pruning h1 min_lifetime 0 tracks [] = Ok (kept, fin)
    /\ match_tracks_to_observations h tracks pool track_adder
         distance_threshold max_n_coasts min_lifetime
       = Ok (mkOutcome (fst (birth track_adder h1 kept pool1))
                       (snd (birth track_adder h1 kept pool1)) [] fin).
Proof.
  intros Htop.
  destruct (matching_greedy distance_threshold Htop tracks h pool)
    as (h1 & pool1 & asg & Em & _).
  destruct (pruning_spec h1 min_lifetime 0 tracks [])
    as (kept & fin & Ep & _).
  exists h1, pool1, kept, fin. split; [exact Em|]. split; [exact Ep|].
  unfold match_tracks_to_observations. rewrite Em. simpl. rewrite Ep. simpl.
  destruct (birth track_adder h1 kept pool1). reflexivity.
Qed.

(** The test of the pruning loop, with the limit on the coast counter
    read from the track.  Every call returns.  A track removed by the pruning loop was invalid, and it
    is in the returned list exactly when its lifetime is above
    [min_lifetime] and its coast counter is below its own attribute
    [max_n_coasts], both read at removal time; it is then in the list once
    for each removal.  A track that was not removed is not in the list. *)
Theorem finished_iff_salvaged (h : heap F) (tracks : list ref)
    (pool : list (Observation F)) (track_adder : adder F)
    (distance_threshold : F) (max_n_coasts min_lifetime : Z) :
  inf_is_top F ->
  exists h1 pool1 kept out,
    matching distance_threshold h tracks pool = Ok (h1, pool1)
    /\ pruning h1 min_lifetime 0 tracks [] = Ok (kept, out_finished_tracks out)
    /\ match_tracks_to_observations h tracks pool track_adder
         distance_threshold max_n_coasts min_lifetime = Ok out
    /\ forall t,
         (removed tracks kept t -> TrackedPoint.is_valid (h1 t) = false)
         /\ (In t (out_finished_tracks out) <->
             removed tracks kept t
             /\ (TrackedPoint.lifetime (h1 t) > min_lifetime)%Z
             /\ (TrackedPoint.n_coasts (h1 t)
                 < TrackedPoint.max_n_coasts (h1 t))%Z)
         /\ count_occ Nat.eq_dec (out_finished_tracks out) t
            = (if salvaged h1 min_lifetime t
               then count_occ Nat.eq_dec tracks t
                    - count_occ Nat.eq_dec kept t
               else 0).
Proof.
  intros Htop.
  destruct (matching_greedy distance_threshold Htop tracks h pool)
    as (h1 & pool1 & asg & Em & _).
  destruct (pruning_spec h1 min_lifetime 0 tracks [])
    as (kept & fin & Ep & Hle & Hinv & Hcnt).
  exists h1, pool1, kept,
    (mkOutcome (fst (birth track_adder h1 kept pool1))
               (snd (birth track_adder h1 kept pool1)) [] fin).
  simpl. split; [exact Em|]. split; [exact Ep|]. split.
  { unfold match_tracks_to_observations. rewrite Em. simpl.
    rewrite Ep. simpl.
    destruct (birth track_adder h1 kept pool1). reflexivity. }
  intros t. specialize (Hle t). specialize (Hinv t). specialize (Hcnt t).
  simpl in Hcnt. unfold removed. split; [exact Hinv|]. split; [|exact Hcnt].
  rewrite (count_occ_In Nat.eq_dec), Hcnt.
  unfold salvaged.
  destruct (Z.gtb_spec (TrackedPoint.lifetime (h1 t)) min_lifetime);
    destruct (Z.ltb_spec (TrackedPoint.n_coasts (h1 t))
                         (TrackedPoint.max_n_coasts (h1 t)));
    simpl; unfold ref in *; lia.
Qed.

End EngineProperties.

(** * The matching loop and the nearest observation *)

Section MatchingOrder.
Context {F : Type} `{Numeric F} `{KalmanLib F} `{!ComparisonLaws F}.

(** The matching loop returns and takes nearest observations first; what
    it took and what it left make up the pool. *)
Lemma matching_takes_nearest_first (distance_threshold : F) :
  forall (tracks : list ref) (h : heap F) (pool : list (Observation F)),
  exists h' pool' assignment,
    matching distance_threshold h tracks pool = Ok (h', pool')
    /\ nearest_first distance_threshold h tracks pool assignment h' pool'
    /\ Permutation pool (consumed assignment ++ pool')
    /\ length assignment = length tracks.
Proof.
  induction tracks as [|track rest IH]; intros h pool.
  - exists h, pool, []. simpl. repeat split; [constructor|reflexivity].
  - simpl.
    pose proof (@nearest_scan_from_nothing _ _ _
                  (TrackedPoint.kx (h track), TrackedPoint.ky (h track))
                  pool [] (fun c' (Hin : In c' []) => match Hin with end))
      as Hscan.
    simpl in Hscan.
    change (TrackedPoint.nearest_scan
              (TrackedPoint.kx (h track), TrackedPoint.ky (h track))
              pool None finf)
      with (TrackedPoint.nearest_observation (h track) pool) in Hscan.
    destruct (TrackedPoint.nearest_observation (h track) pool)
      as [[z|] d] eqn:En.
    + destruct Hscan as (-> & Hfin & i & Hi & Hmin & Hfirst).
      destruct (fltb (TrackedPoint.distance _ z) distance_threshold) eqn:Ed.
      * assert (Er : list_remove Observation_eq_dec z pool
                     = Some (firstn i pool ++ skipn (S i) pool)).
        { apply list_remove_first_index; [exact Hi|].
          intros j Hj Hnth. specialize (Hfirst j z Hj Hnth Hfin).
          rewrite fltb_irrefl in Hfirst. discriminate. }
        rewrite Er.
        set (h1 := write (write h track (TrackedPoint.step (h track) z))
                         track _).
        destruct (IH h1 (firstn i pool ++ skipn (S i) pool))
          as (h' & pool' & asg & E & G & P & L).
        exists h', pool', (Some z :: asg).
        split; [exact E|]. split; [|split].
        -- eapply nearest_first_match with (h1 := h1) (i := i); eauto.
           ++ subst h1. now rewrite !write_same.
           ++ intros r Hr. subst h1. now rewrite !write_other.
        -- simpl. rewrite (list_remove_perm _ _ _ Er).
           now apply perm_skip.
        -- simpl. now rewrite L.
      * set (h1 := write h track (TrackedPoint.coast (h track))).
        destruct (IH h1 pool) as (h' & pool' & asg & E & G & P & L).
        exists h', pool', (None :: asg).
        split; [exact E|]. split; [|split].
        -- eapply nearest_first_coast with (h1 := h1); eauto.
           ++ intros c Hin.
              match goal with |- ?lhs = false => destruct lhs eqn:Ec end;
                [|reflexivity].
              destruct (fltb_split _ _ _ Ec Hfin) as [E'|E'].
              ** change (fltb (TrackedPoint.distance
                                 (TrackedPoint.kx (h track),
                                  TrackedPoint.ky (h track)) c)
                              (TrackedPoint.distance
                                 (TrackedPoint.kx (h track),
                                  TrackedPoint.ky (h track)) z) = true)
                   in E'.
                 rewrite (Hmin c Hin) in E'. discriminate.
              ** rewrite Ed in E'. discriminate.
           ++ subst h1. now rewrite write_same.
           ++ intros r Hr. subst h1. now rewrite write_other.
        -- exact P.
        -- simpl. now rewrite L.
    + destruct Hscan as (-> & Hnone).
      rewrite fltb_inf_top.
      set (h1 := write h track (TrackedPoint.coast (h track))).
      destruct (IH h1 pool) as (h' & pool' & asg & E & G & P & L).
      exists h', pool', (None :: asg).
      split; [exact E|]. split; [|split].
      * eapply nearest_first_coast with (h1 := h1); eauto.
        -- intros c Hin.
           match goal with |- ?lhs = false => destruct lhs eqn:Ec end;
             [|reflexivity].
           apply fltb_below_inf in Ec.
           change (fltb (TrackedPoint.distance
                           (TrackedPoint.kx (h track),
                            TrackedPoint.ky (h track)) c) finf = true) in Ec.
           rewrite (Hnone c Hin) in Ec. discriminate.
        -- subst h1. now rewrite write_same.
        -- intros r Hr. subst h1. now rewrite write_other.
      * exact P.
      * simpl. now rewrite L.
Qed.

End MatchingOrder.

(** * The two instances *)

Lemma binary64_inf_is_top : inf_is_top float.
Proof.
  intros a. simpl. rewrite ltb_spec.
  change (Prim2SF infinity) with (S754_infinity false).
  destruct (Prim2SF a) as [[|]|[|]| |[|] m e]; reflexivity.
Qed.

Lemma exact_order_laws : OrderLaws Exact.xint.
Proof.
  split; simpl.
  - intros [u|]; simpl; [apply Z.leb_refl|reflexivity].
  - intros [u|] [v|]; simpl; try congruence.
    intros E. apply Z.ltb_lt in E. apply Z.leb_le. lia.
  - intros [u|] [v|]; simpl; try congruence.
    intros E. apply Z.ltb_ge in E. now apply Z.leb_le.
  - intros [u|] [v|] [w|]; simpl; try congruence.
    intros E1 E2. apply Z.ltb_lt in E1. apply Z.leb_le in E2.
    apply Z.ltb_lt. lia.
Qed.

Lemma add_track_appends (sigma_Q sigma_R : float) :
  forall (h : heap float) (l : list ref) (o : Observation float),
  exists r, snd (Binary64.add_track sigma_Q sigma_R h l o) = l ++ [r].
Proof. intros h l o. eexists. reflexivity. Qed.

(** * The order of binary64 numbers *)

Lemma SFltb_key (x y : spec_float) :
  SFltb x y = true <->
  match Binary64.float_key x, Binary64.float_key y with
  | Some a, Some b => Binary64.key_lt a b
  | _, _ => False
  end.
Proof.
  unfold SFltb.
  destruct x as [[|]|[|]| |[|] m1 e1], y as [[|]|[|]| |[|] m2 e2];
    simpl;
    try change (Pos.compare_cont Eq m1 m2) with (Pos.compare m1 m2);
    try destruct (Z.compare_spec e1 e2);
    try destruct (Pos.compare_spec m1 m2);
    simpl;
    (split; intros Hx;
     [try discriminate Hx; try contradiction; lia
     |try reflexivity; try contradiction; exfalso; lia]).
Qed.

Lemma ltb_key (a b : float) :
  PrimFloat.ltb a b = true <->
  match Binary64.float_key (Prim2SF a), Binary64.float_key (Prim2SF b) with
  | Some u, Some v => Binary64.key_lt u v
  | _, _ => False
  end.
Proof. rewrite ltb_spec. apply SFltb_key. Qed.

Lemma key_top (x : spec_float) (k : Z * Z * Z) :
  Binary64.float_key x = Some k ->
  k = (2, 0, 0)%Z \/ Binary64.key_lt k (2, 0, 0)%Z.
Proof.
  destruct x as [[|]|[|]| |[|] m e]; simpl; intros E;
    try discriminate; injection E as <-; simpl; try lia; auto.
Qed.

Lemma key_of_lt (a b : float) :
  PrimFloat.ltb a b = true ->
  exists u v, Binary64.float_key (Prim2SF a) = Some u
              /\ Binary64.float_key (Prim2SF b) = Some v
              /\ Binary64.key_lt u v.
Proof.
  intros E. apply ltb_key in E.
  destruct (Binary64.float_key (Prim2SF a)) as [u|]; [|contradiction].
  destruct (Binary64.float_key (Prim2SF b)) as [v|]; [|contradiction].
  now exists u, v.
Qed.

Lemma lt_of_key (a b : float) (u v : Z * Z * Z) :
  Binary64.float_key (Prim2SF a) = Some u ->
  Binary64.float_key (Prim2SF b) = Some v ->
  Binary64.key_lt u v -> PrimFloat.ltb a b = true.
Proof. intros Ea Eb L. apply ltb_key. now rewrite Ea, Eb. Qed.

Lemma key_infinity :
  Binary64.float_key (Prim2SF infinity) = Some (2, 0, 0)%Z.
Proof. reflexivity. Qed.

(** [<] on binary64 numbers has the laws of [ComparisonLaws], NaN
    included. *)
Lemma binary64_comparison_laws : ComparisonLaws float.
Proof.
  split; simpl.
  - intros a. destruct (PrimFloat.ltb a a) eqn:E; [|reflexivity].
    destruct (key_of_lt E) as ([[u1 u2] u3] & [[v1 v2] v3] & Eu & Ev & L).
    rewrite Eu in Ev. injection Ev as <- <- <-. simpl in L. lia.
  - intros a b c E1 E2.
    destruct (key_of_lt E1) as ([[u1 u2] u3] & [[v1 v2] v3] & Eu & Ev & L1).
    destruct (key_of_lt E2) as ([[v1' v2'] v3'] & [[w1 w2] w3] & Ev' & Ew & L2).
    rewrite Ev in Ev'. injection Ev' as <- <- <-.
    apply (lt_of_key _ _ Eu Ew). simpl in *. lia.
  - intros a b c E1 E2.
    destruct (key_of_lt E1) as ([[u1 u2] u3] & [[w1 w2] w3] & Eu & Ew & L1).
    destruct (key_of_lt E2) as ([[v1 v2] v3] & t & Ev & _ & _).
    assert (D : Binary64.key_lt (u1, u2, u3) (v1, v2, v3)
                \/ Binary64.key_lt (v1, v2, v3) (w1, w2, w3))
      by (simpl in *; lia).
    destruct D as [D|D]; [left|right]; eapply lt_of_key; eauto.
  - intros a b E.
    destruct (key_of_lt E) as ([[u1 u2] u3] & [[v1 v2] v3] & Eu & Ev & L).
    apply (lt_of_key _ _ Eu key_infinity).
    destruct (key_top _ Ev) as [T|T]; [injection T as -> -> ->|];
      simpl in *; lia.
  - intros a. destruct (PrimFloat.ltb infinity a) eqn:E; [|reflexivity].
    destruct (key_of_lt E) as (u & [[v1 v2] v3] & Eu & Ev & L).
    rewrite key_infinity in Eu. injection Eu as <-.
    destruct (key_top _ Ev) as [T|T]; [injection T as -> -> ->|];
      simpl in *; lia.
Qed.

(** [update] refuses a vector that has more than the two entries of the
    filter's measurement. *)
Lemma update_or_raise_longer (k : KalmanFilter float)
    (z : Observation float) :
  obs_rest z <> [] ->
  Binary64.update_or_raise k (obs_vector z) = Raise ValueError.
Proof.
  intros Hrest. unfold Binary64.update_or_raise, obs_vector.
  destruct (obs_rest z); [contradiction|reflexivity].
Qed.

(** When [update] returns, it returns the updated filter. *)
Lemma update_or_raise_returns (k k' : KalmanFilter float) (z : list float) :
  Binary64.update_or_raise k z = Ok k' -> k' = Binary64.update k z.
Proof.
  unfold Binary64.update_or_raise.
  destruct (negb (length z =? 2)); [discriminate|].
  destruct (Binary64.singular2 _); [discriminate|].
  now intros [= <-].
Qed.

(** * The frames of [Scenario] *)

(** C2.  Two tracks each step with a measurement outside the boundary.
    The pruning loop removes the first; the iterator then moves past the
    second, which stays in [tracked_objects] although [is_valid()] is
    false for it. *)
Theorem pruning_skips_after_a_removal :
  exists out,
    match_tracks_to_observations Scenario.near_edge [0; 1] Scenario.past_edge
      (Binary64.add_track 1 1) 30%float 3 3 = Ok out
    /\ out_tracked_objects out = [1]
    /\ out_finished_tracks out = []
    /\ out_observations out = []
    /\ TrackedPoint.x (out_objects out 1) = 1010%float
    /\ TrackedPoint.in_bounds (out_objects out 1) = false
    /\ TrackedPoint.is_valid (out_objects out 1) = false.
Proof.
  eexists. split; [vm_compute; reflexivity|].
  vm_compute. repeat split; reflexivity.
Qed.

(** The reading of [finished_by_call_limit], with the limit on the coast
    counter read from the argument [max_n_coasts] of the call, does not
    hold.  One track, last observed
    outside the boundary, lifetime 10, coast counter 5; no observation;
    the arguments [max_n_coasts = 3] and [min_lifetime = 3].  The track
    coasts (counter 6, lifetime 11), is removed, and is returned, although
    6 is not below 3: the loop compares with the attribute [max_n_coasts]
    of the track, which is 20. *)
Lemma finished_not_by_call_limit :
  ~ finished_by_call_limit Scenario.lost [0] [] (Binary64.add_track 1 1)
      30%float 3 3.
Proof.
  intros Hclaim.
  destruct (engine_phases Scenario.lost [0] [] (Binary64.add_track 1 1)
              30%float 3 3 binary64_inf_is_top)
    as (h1 & pool1 & kept & fin & Em & Ep & Ee).
  pose proof (Hclaim h1 pool1 kept (mkOutcome _ _ _ fin) Em Ep Ee 0) as Hc.
  simpl in Hc.
  vm_compute in Em. injection Em as <- <-.
  vm_compute in Ep. injection Ep as <- <-.
  assert (Hr : removed [0] [] 0) by (vm_compute; lia).
  destruct (Hc Hr) as [Hin _].
  destruct (Hin (or_introl eq_refl)) as [_ Hn].
  vm_compute in Hn. discriminate.
Qed.

(** Inside the boundary every measurement with entries beyond the
    position makes [step] raise. *)
Lemma step_raises_beyond_the_position (t : TrackedPoint.t float)
    (z : Observation float) :
  Bounds2D.contains (TrackedPoint.boundary t) (obs_x z) (obs_y z) = true ->
  obs_rest z <> [] ->
  snd (step_raising t z) = Raise ValueError
  /\ TrackedPoint.kf_tail (fst (step_raising t z)) = TrackedPoint.kf_tail t
  /\ TrackedPoint.kf (fst (step_raising t z))
     = Binary64.predict (TrackedPoint.kf t).
Proof.
  intros Hin Hrest.
  rewrite (@step_raising_raises _ _ _ _ t z ValueError Hin).
  - repeat split.
  - apply update_or_raise_longer. exact Hrest.
Qed.

(** C5.  A new track in the middle of the boundary is given a measurement
    of three entries at its position, inside the boundary.  [step] adds 1
    to the lifetime, stores the observed position and pushes it on the
    observed-position FIFO, runs [predict], and then raises [ValueError]
    in [update]: the filter is left predicted and not updated, and nothing
    is pushed on the filtered-position FIFO.  The same measurement cut to
    its two position entries is accepted. *)
Theorem step_raises_on_a_longer_vector :
  Bounds2D.contains (TrackedPoint.boundary Scenario.centre)
    (obs_x Scenario.with_extra) (obs_y Scenario.with_extra) = true
  /\ length (obs_vector Scenario.with_extra) = 3
  /\ step_raising Scenario.centre Scenario.with_extra
     = (TrackedPoint.mk 0 500%float 500%float 0%float 0%float
          (TrackedPoint.boundary Scenario.centre)
          1 50 0 20 0%float 1000%float
          (Binary64.predict (TrackedPoint.kf Scenario.centre))
          [(500%float, 500%float)]
          [],
        Raise ValueError)
  /\ snd (step_raising Scenario.centre
            (position_only Scenario.with_extra)) = Ok tt
  /\ length (TrackedPoint.kf_tail
               (fst (step_raising Scenario.centre
                       (position_only Scenario.with_extra)))) = 1.
Proof.
  split; [vm_compute; reflexivity|].
  split; [reflexivity|].
  split; [vm_compute; reflexivity|].
  split; vm_compute; reflexivity.
Qed.

(** C1.  One track, last observed outside the boundary, lifetime 10,
    coast counter 5; no observation; the call is made with
    [max_n_coasts = 3] and [min_lifetime = 3].  The track coasts (coast
    counter 6, lifetime 11), is invalid and is removed.  Its coast counter
    is not below the [max_n_coasts] of the call, and yet it is returned:
    the loop compares the counter with the attribute [max_n_coasts] of the
    track, which is 20, and the argument of the call is not read, so that
    the call returns the same for every value of it. *)
Theorem call_limit_is_not_read :
  exists out,
    match_tracks_to_observations Scenario.lost [0] []
      (Binary64.add_track 1 1) 30%float 3 3 = Ok out
    /\ out_tracked_objects out = []
    /\ out_finished_tracks out = [0]
    /\ TrackedPoint.is_valid (out_objects out 0) = false
    /\ TrackedPoint.lifetime (out_objects out 0) = 11%Z
    /\ TrackedPoint.n_coasts (out_objects out 0) = 6%Z
    /\ Z.ltb (TrackedPoint.n_coasts (out_objects out 0)) 3 = false
    /\ TrackedPoint.max_n_coasts (out_objects out 0) = 20%Z
    /\ forall max_n_coasts,
         match_tracks_to_observations Scenario.lost [0] []
           (Binary64.add_track 1 1) 30%float max_n_coasts 3 = Ok out.
Proof.
  eexists. split; [vm_compute; reflexivity|].
  repeat split; try (vm_compute; reflexivity).
Qed.

(** The reading of C4 under which the coast distance grows by the
    distance from the last observed position to the new filtered
    position does not hold.  A new track at (10, 20) with velocity (3, 4)
    coasts: the new filtered position is (13, 24), at distance 5 from
    (10, 20), and the coast distance grows by 10, the distance from
    (10, 20) to (16, 28). *)
Lemma coast_measures_one_step_ahead :
  (TrackedPoint.x Scenario.moving, TrackedPoint.y Scenario.moving)
  = (10%float, 20%float)
  /\ (TrackedPoint.kx (TrackedPoint.coast Scenario.moving),
      TrackedPoint.ky (TrackedPoint.coast Scenario.moving))
     = (13%float, 24%float)
  /\ TrackedPoint.coast_length Scenario.moving = 0%float
  /\ TrackedPoint.coast_length (TrackedPoint.coast Scenario.moving)
     = 10%float
  /\ euclid 13%float 24%float 10%float 20%float = 5%float
  /\ euclid 16%float 28%float 10%float 20%float = 10%float
  /\ ~ coast_adds_predicted_displacement Scenario.moving.
Proof.
  repeat split; try (vm_compute; reflexivity).
  unfold coast_adds_predicted_displacement. intros E.
  apply (f_equal (fun v => PrimFloat.eqb v 10%float)) in E.
  vm_compute in E. discriminate.
Qed.


(** The two tracks of [near_edge] and the candidates [near]: the second
    candidate is the nearest of both tracks; the first track takes it and
    the second track takes the nearest of what is left. *)
Lemma contested_observation :
  exists h' pool',
    matching 30%float Scenario.near_edge [0; 1] Scenario.near
    = Ok (h', pool')
    /\ pool' = [mkObservation 990%float 520%float [];
                mkObservation 980%float 500%float []]
    /\ (TrackedPoint.x (h' 0), TrackedPoint.y (h' 0))
       = (1000%float, 500%float)
    /\ (TrackedPoint.x (h' 1), TrackedPoint.y (h' 1))
       = (990%float, 510%float)
    /\ fst (TrackedPoint.nearest_observation (Scenario.near_edge 1)
              Scenario.near)
       = Some (mkObservation 1000%float 500%float []).
Proof.
  eexists. eexists. split; [vm_compute; reflexivity|].
  repeat split; vm_compute; reflexivity.
Qed.

(** * The theorems at concrete frames *)

Lemma finished_iff_salvaged_witness :
  inf_is_top float
  /\ exists h1 pool1 kept out,
      matching 30%float Scenario.near_edge [0; 1] Scenario.past_edge
      = Ok (h1, pool1)
      /\ pruning h1 0 0 [0; 1] [] = Ok (kept, out_finished_tracks out)
      /\ match_tracks_to_observations Scenario.near_edge [0; 1]
           Scenario.past_edge (Binary64.add_track 1 1) 30%float 3 0 = Ok out
      /\ forall t,
           (removed [0; 1] kept t -> TrackedPoint.is_valid (h1 t) = false)
           /\ (In t (out_finished_tracks out) <->
               removed [0; 1] kept t
               /\ (TrackedPoint.lifetime (h1 t) > 0)%Z
               /\ (TrackedPoint.n_coasts (h1 t)
                   < TrackedPoint.max_n_coasts (h1 t))%Z)
           /\ count_occ Nat.eq_dec (out_finished_tracks out) t
              = (if salvaged h1 0 t
                 then count_occ Nat.eq_dec [0; 1] t
                      - count_occ Nat.eq_dec kept t
                 else 0).
Proof.
  split; [exact binary64_inf_is_top|].
  exact (finished_iff_salvaged Scenario.near_edge [0; 1] Scenario.past_edge
           (Binary64.add_track 1 1) 30%float 3 0 binary64_inf_is_top).
Defined.




Lemma tails_stay_bounded_witness :
  tails_bounded Scenario.edge_track
  /\ tails_bounded (fold_left run_call Scenario.calls Scenario.edge_track)
  /\ TrackedPoint.n_tail_points
       (fold_left run_call Scenario.calls Scenario.edge_track)
     = TrackedPoint.n_tail_points Scenario.edge_track.
Proof.
  assert (Hb : tails_bounded Scenario.edge_track)
    by (split; vm_compute; discriminate).
  split; [exact Hb|].
  exact (@tails_stay_bounded _ _ _ Scenario.calls Scenario.edge_track Hb).
Defined.

Lemma step_outside_frame_witness :
  Bounds2D.contains (TrackedPoint.boundary Scenario.edge_track)
    (obs_x Scenario.outside) (obs_y Scenario.outside) = false
  /\ TrackedPoint.step Scenario.edge_track Scenario.outside =
      TrackedPoint.mk 0 1005%float 500%float 0%float 0%float
         (TrackedPoint.boundary Scenario.edge_track)
         1 50 0 20 0%float 1000%float
         (TrackedPoint.kf Scenario.edge_track)
         [(1005%float, 500%float)]
         [].
Proof.
  assert (Hout : Bounds2D.contains (TrackedPoint.boundary Scenario.edge_track)
                   (obs_x Scenario.outside) (obs_y Scenario.outside) = false)
    by (vm_compute; reflexivity).
  split; [exact Hout|].
  exact (proj1 (@step_outside_frame _ _ _ Scenario.edge_track
                  Scenario.outside Hout)).
Defined.

(** * Further properties of a track *)

Section CallSequences.
Context {F : Type} `{Numeric F} `{KalmanLib F}.

Import TrackedPoint.

(** What one call does to the counters and to the configuration. *)
Lemma run_call_counters (t : t F) (c : call F) :
  lifetime (run_call t c) = (lifetime t + 1)%Z
  /\ n_coasts (run_call t c) = (n_coasts t + coasts_in [c])%Z
  /\ id (run_call t c) = id t
  /\ (vx (run_call t c), vy (run_call t c)) = (vx t, vy t)
  /\ boundary (run_call t c) = boundary t
  /\ n_tail_points (run_call t c) = n_tail_points t
  /\ max_n_coasts (run_call t c) = max_n_coasts t
  /\ max_coast_length (run_call t c) = max_coast_length t.
Proof.
  destruct c as [z|]; cbn [run_call].
  - rewrite step_unfold. cbv zeta.
    destruct (Bounds2D.contains (boundary t) (obs_x z) (obs_y z));
      rewrite ?update_tail_spec; cbn; repeat split; lia.
  - rewrite coast_unfold. cbv zeta.
    destruct (kf_x (kf_predict (kf t))) as [[[px pvx] py] pvy].
    simpl. repeat split.
Qed.

Lemma coasts_in_cons (c : call F) (calls : list (call F)) :
  coasts_in (c :: calls) = (coasts_in [c] + coasts_in calls)%Z.
Proof. unfold coasts_in. destruct c; cbn [filter length]; lia. Qed.

(** The same for a sequence of calls. *)
Lemma calls_counters (calls : list (call F)) (t : t F) :
  let t' := fold_left run_call calls t in
  lifetime t' = (lifetime t + Z.of_nat (length calls))%Z
  /\ n_coasts t' = (n_coasts t + coasts_in calls)%Z
  /\ id t' = id t
  /\ (vx t', vy t') = (vx t, vy t)
  /\ boundary t' = boundary t
  /\ n_tail_points t' = n_tail_points t
  /\ max_n_coasts t' = max_n_coasts t
  /\ max_coast_length t' = max_coast_length t.
Proof.
  cbv zeta. revert t. induction calls as [|c calls IH]; intros t.
  - unfold coasts_in. simpl. repeat split; lia.
  - cbn [fold_left].
    destruct (IH (run_call t c)) as (E1 & E2 & E3 & E4 & E5 & E6 & E7 & E8).
    destruct (run_call_counters t c)
      as (C1 & C2 & C3 & C4 & C5 & C6 & C7 & C8).
    rewrite E1, E2, E3, E4, E5, E6, E7, E8, coasts_in_cons.
    cbn [length]. repeat split; try assumption; lia.
Qed.

(** X1.  Every [step] and every [coast] adds exactly 1 to the lifetime:
    after any sequence of calls the lifetime has grown by their number. *)
Theorem lifetime_counts_calls (calls : list (call F)) (t : t F) :
  lifetime (fold_left run_call calls t)
  = (lifetime t + Z.of_nat (length calls))%Z.
Proof. exact (proj1 (calls_counters calls t)). Qed.

(** X2.  [coast] adds 1 to the coast counter and [step] leaves it as it
    is -- the reset to 0 on a match is not done by [step]: after any
    sequence of calls the counter has grown by the number of coasts. *)
Theorem n_coasts_counts_coasts (calls : list (call F)) (t : t F) :
  n_coasts (fold_left run_call calls t)
  = (n_coasts t + coasts_in calls)%Z.
Proof. exact (proj1 (proj2 (calls_counters calls t))). Qed.

(** X3.  No sequence of [step] and [coast] calls changes the identity,
    the observed velocity, the boundary or any of the three thresholds of
    a track. *)
Theorem calls_keep_configuration (calls : list (call F)) (t : t F) :
  let t' := fold_left run_call calls t in
  id t' = id t
  /\ (vx t', vy t') = (vx t, vy t)
  /\ boundary t' = boundary t
  /\ n_tail_points t' = n_tail_points t
  /\ max_n_coasts t' = max_n_coasts t
  /\ max_coast_length t' = max_coast_length t.
Proof. exact (proj2 (proj2 (calls_counters calls t))). Qed.

(** X16.  [step] and [coast] alone never bring back a track that has
    coasted too long: once the coast counter is above its threshold, it
    is still above it, and the track still invalid, after any sequence of
    calls.  (Only the engine sets the counter back to 0.) *)
Theorem coasted_too_long_is_permanent (calls : list (call F)) (t : t F) :
  coasted_too_long t = true ->
  coasted_too_long (fold_left run_call calls t) = true
  /\ is_valid (fold_left run_call calls t) = false.
Proof.
  intros Hlong.
  assert (Hl : coasted_too_long (fold_left run_call calls t) = true).
  { unfold coasted_too_long in *.
    destruct (calls_counters calls t) as (_ & -> & _ & _ & _ & _ & -> & _).
    assert (0 <= coasts_in calls)%Z by (unfold coasts_in; lia).
    apply Z.gtb_lt in Hlong. apply Z.gtb_lt. lia. }
  split; [exact Hl|].
  unfold is_valid. rewrite Hl.
  destruct (negb (in_bounds _)); reflexivity.
Qed.

(** X4.  [step] never touches the coast distance, inside the boundary or
    outside: it is the same after any run of steps.  [coast] never
    touches the observed position or the observed-position FIFO: they are
    the same after any run of coasts. *)
Theorem steps_and_coasts_apart (zs : list (Observation F)) (n : nat)
    (t : t F) :
  coast_length (fold_left run_call (map (@Step F) zs) t) = coast_length t
  /\ (x (fold_left run_call (repeat Coast n) t),
      y (fold_left run_call (repeat Coast n) t)) = (x t, y t)
  /\ obs_tail (fold_left run_call (repeat Coast n) t) = obs_tail t.
Proof.
  split.
  - revert t. induction zs as [|z zs IH]; intros t; [reflexivity|].
    cbn [map fold_left]. rewrite IH. cbn [run_call].
    rewrite step_unfold. cbv zeta.
    destruct (Bounds2D.contains (boundary t) (obs_x z) (obs_y z));
      rewrite ?update_tail_spec; reflexivity.
  - revert t. induction n as [|n IH]; intros t; [split; reflexivity|].
    cbn [repeat fold_left]. destruct (IH (run_call t Coast)) as [-> ->].
    cbn [run_call]. rewrite coast_unfold. cbv zeta.
    destruct (kf_x (kf_predict (kf t))) as [[[px pvx] py] pvy].
    split; reflexivity.
Qed.

(** A push on a FIFO within its capacity keeps the newest entries. *)
Lemma fifo_push_newest {A : Type} (capacity : Z) (q : list A) (e : A) :
  (Z.of_nat (length q) <= capacity)%Z ->
  fifo_push capacity q e = newest capacity (q ++ [e]).
Proof.
  intros Hq. unfold fifo_push, newest. rewrite length_app. simpl.
  destruct (Z.geb_spec (Z.of_nat (length q)) capacity) as [Hfull|Hroom].
  - replace (length q + 1 - Z.to_nat capacity) with 1 by lia. reflexivity.
  - replace (length q + 1 - Z.to_nat capacity) with 0 by lia. reflexivity.
Qed.

(** The newest entries of a list are those of its newest entries followed
    by what came after. *)
Lemma newest_app {A : Type} (n : Z) (a b : list A) :
  newest n (newest n a ++ b) = newest n (a ++ b).
Proof.
  unfold newest. rewrite !length_app, length_skipn.
  destruct (Nat.le_gt_cases (length a) (Z.to_nat n)) as [Hle|Hgt].
  - replace (length a - Z.to_nat n) with 0 by lia. simpl.
    now rewrite Nat.sub_0_r.
  - rewrite !skipn_app, length_skipn, skipn_skipn.
    f_equal; f_equal; lia.
Qed.

(** X5.  The observed-position FIFO is a sliding window: on a track whose
    FIFOs are within the configured length, after any sequence of calls
    it holds the newest [n_tail_points] of the positions it held followed
    by the positions observed by the steps, oldest first. *)
Theorem obs_tail_is_a_window (calls : list (call F)) (t : t F) :
  tails_bounded t ->
  obs_tail (fold_left run_call calls t)
  = newest (n_tail_points t) (obs_tail t ++ observed_by calls).
Proof.
  revert t. induction calls as [|c calls IH]; intros t Hb.
  - simpl. rewrite app_nil_r. unfold newest.
    destruct Hb as [Ho _].
    replace (length (obs_tail t) - Z.to_nat (n_tail_points t)) with 0 by lia.
    reflexivity.
  - cbn [fold_left].
    assert (Hc : tails_bounded (run_call t c)
                 /\ n_tail_points (run_call t c) = n_tail_points t).
    { destruct c; simpl;
        [now apply step_keeps_bound|now apply coast_keeps_bound]. }
    destruct Hc as [Hc En]. rewrite (IH _ Hc), En.
    destruct c as [z|]; cbn [run_call observed_by flat_map].
    + assert (Eo : obs_tail (step t z)
                   = fifo_push (n_tail_points t) (obs_tail t)
                               (obs_x z, obs_y z)).
      { rewrite step_unfold. cbv zeta.
        destruct (Bounds2D.contains (boundary t) (obs_x z) (obs_y z));
          rewrite ?update_tail_spec; reflexivity. }
      rewrite Eo, fifo_push_newest by apply Hb.
      rewrite newest_app, <- app_assoc. reflexivity.
    + assert (Eo : obs_tail (coast t) = obs_tail t).
      { rewrite coast_unfold. cbv zeta.
        destruct (kf_x (kf_predict (kf t))) as [[[px pvx] py] pvy].
        reflexivity. }
      now rewrite Eo.
Qed.

(** A push on a FIFO of capacity 1 or more leaves the pushed entry last. *)
Lemma fifo_push_last {A : Type} (capacity : Z) (q : list A) (e : A) :
  (1 <= capacity)%Z -> exists q', fifo_push capacity q e = q' ++ [e].
Proof.
  intros Hc. unfold fifo_push.
  destruct (Z.geb_spec (Z.of_nat (length q)) capacity) as [Hfull|Hroom].
  - destruct q as [|a q]; simpl in *; [lia|]. now exists q.
  - now exists q.
Qed.

(** X6.  With a configured length of 1 or more, the newest entry of the
    observed-position FIFO after a [step] is the position just observed,
    and the newest entry of the filtered-position FIFO after a [coast] is
    the filtered position the track now has. *)
Theorem newest_tail_point (t : t F) (z : Observation F) :
  (1 <= n_tail_points t)%Z ->
  (exists q, obs_tail (step t z) = q ++ [(x (step t z), y (step t z))])
  /\ (exists q, kf_tail (coast t) = q ++ [(kx (coast t), ky (coast t))]).
Proof.
  intros Hn. split.
  - rewrite step_unfold. cbv zeta.
    destruct (Bounds2D.contains (boundary t) (obs_x z) (obs_y z));
      rewrite ?update_tail_spec; simpl; now apply fifo_push_last.
  - rewrite coast_unfold. cbv zeta. unfold kx, ky.
    destruct (kf_x (kf_predict (kf t))) as [[[px pvx] py] pvy] eqn:Ek.
    simpl. rewrite Ek. now apply fifo_push_last.
Qed.
End CallSequences.

(** * Further properties of the nearest observation and of the boundary *)

Section NearestMore.
Context {F : Type} `{Numeric F}.

Import TrackedPoint.

Lemma nearest_scan_some (here : F * F) (l : list (Observation F))
    (n : option (Observation F)) (m d : F) (c : Observation F) :
  nearest_scan here l n m = (Some c, d) ->
  (n = Some c /\ d = m) \/ (In c l /\ d = distance here c).
Proof.
  revert n m. induction l as [|p l IH]; intros n m; simpl.
  - intros E. injection E as -> ->. now left.
  - destruct (fltb (distance here p) m); intros E; apply IH in E.
    + destruct E as [[E ->]|[Hin ->]].
      * injection E as ->. right. split; [now left|reflexivity].
      * right. split; [now right|reflexivity].
    + destruct E as [[-> ->]|[Hin ->]].
      * now left.
      * right. split; [now right|reflexivity].
Qed.

Lemma nearest_scan_none_all (here : F * F) (l : list (Observation F))
    (m d : F) :
  nearest_scan here l None m = (None, d) ->
  Forall (fun c => fltb (distance here c) m = false) l.
Proof.
  revert m. induction l as [|p l IH]; intros m; simpl; [constructor|].
  destruct (fltb (distance here p) m) eqn:Ep.
  - intros E.
    destruct (nearest_scan_keeps here l p (distance here p))
      as (c' & d' & E').
    congruence.
  - intros E. constructor; [exact Ep|now apply IH].
Qed.

Lemma nearest_scan_some_exists (here : F * F) (l : list (Observation F))
    (m d : F) (c : Observation F) :
  nearest_scan here l None m = (Some c, d) ->
  Exists (fun c' => fltb (distance here c') m = true) l.
Proof.
  revert m. induction l as [|p l IH]; intros m; simpl; [discriminate|].
  destruct (fltb (distance here p) m) eqn:Ep.
  - intros _. now apply Exists_cons_hd.
  - intros E. apply Exists_cons_tl. now apply IH in E.
Qed.

(** X7.  Whatever the order of the numbers does, [nearest_observation]
    returns a candidate only from the list it was given, with the
    distance of that very candidate, and it returns [None] -- with
    infinity -- exactly when no candidate is strictly nearer than
    infinity: on the empty list, but also on a list whose distances are
    all infinite or incomparable. *)
Theorem nearest_observation_returns_member (t : t F)
    (z_candidates : list (Observation F)) :
  match nearest_observation t z_candidates with
  | (Some c, d) =>
      In c z_candidates
      /\ d = distance (kx t, ky t) c
      /\ Exists (fun c' => fltb (distance (kx t, ky t) c') finf = true)
                z_candidates
  | (None, d) =>
      d = finf
      /\ Forall (fun c' => fltb (distance (kx t, ky t) c') finf = false)
                z_candidates
  end.
Proof.
  unfold nearest_observation.
  destruct (nearest_scan (kx t, ky t) z_candidates None finf)
    as [[c|] d] eqn:E.
  - pose proof (nearest_scan_some_exists _ _ _ E) as Hex.
    apply nearest_scan_some in E.
    destruct E as [[E _]|[Hin ->]]; [discriminate|]. auto.
  - pose proof (nearest_scan_none_all _ _ _ E) as Hall.
    apply nearest_scan_none in E. destruct E as [_ ->]. auto.
Qed.

Lemma nearest_scan_position_only (here : F * F) (l : list (Observation F))
    (n : option (Observation F)) (m : F) :
  nearest_scan here (map (@position_only F) l)
               (option_map (@position_only F) n) m
  = (option_map (@position_only F) (fst (nearest_scan here l n m)),
     snd (nearest_scan here l n m)).
Proof.
  revert n m. induction l as [|p l IH]; intros n m; simpl; [reflexivity|].
  change (distance here (position_only p)) with (distance here p).
  destruct (fltb (distance here p) m).
  - apply (IH (Some p)).
  - apply IH.
Qed.

(** X8.  [nearest_observation] reads the first two entries of each
    candidate and nothing else: cutting every candidate down to its
    position gives the same distance and the same choice, cut down. *)
Theorem nearest_observation_reads_positions (t : t F)
    (z_candidates : list (Observation F)) :
  nearest_observation t (map (@position_only F) z_candidates)
  = (option_map (@position_only F)
       (fst (nearest_observation t z_candidates)),
     snd (nearest_observation t z_candidates)).
Proof.
  unfold nearest_observation.
  apply (nearest_scan_position_only (kx t, ky t) z_candidates None finf).
Qed.

(** X9.  The boundary is closed below and open above: its lower corner
    is inside whenever the rectangle is not empty, and no point on its
    upper edges is inside; so a track last observed on an upper edge is
    not valid. *)
Theorem boundary_edges (b : Bounds2D.t F) (x y : F) (t : t F) :
  lt_irreflexive F ->
  (forall a : F, fleb a a = true) ->
  Bounds2D.contains b (Bounds2D.xmax b) y = false
  /\ Bounds2D.contains b x (Bounds2D.ymax b) = false
  /\ Bounds2D.contains b (Bounds2D.xmin b) (Bounds2D.ymin b)
     = fltb (Bounds2D.xmin b) (Bounds2D.xmax b)
       && fltb (Bounds2D.ymin b) (Bounds2D.ymax b)
  /\ is_valid (set_xy t (Bounds2D.xmax (boundary t)) y) = false
  /\ is_valid (set_xy t x (Bounds2D.ymax (boundary t))) = false.
Proof.
  intros Hirr Hrefl. unfold is_valid, in_bounds, Bounds2D.contains.
  destruct t; simpl. rewrite !Hirr, !Hrefl.
  rewrite !andb_false_r. simpl. repeat split; reflexivity.
Qed.
End NearestMore.

Section NewTrack.
Context {F : Type} `{Numeric F} `{KalmanLib F}.

Import TrackedPoint.

(** X10.  A track just built is valid exactly when the position it was
    built at is inside the default boundary, 0 <= x < 1000 and
    0 <= y < 1000; its filter starts at the state it was built with, so
    that its filtered position is its observed position; and both its
    FIFOs are empty. *)
Theorem new_track (x0 vx0 y0 vy0 sigma_Q sigma_R : F) :
  fltb (of_Z 1000) (of_Z 0) = false ->
  let t := init (x0, vx0, y0, vy0) sigma_Q sigma_R in
  is_valid t
  = Bounds2D.contains
      (Bounds2D.init (of_Z 0) (of_Z 0) (of_Z 1000) (of_Z 1000)) x0 y0
  /\ (kx t, kvx t, ky t, kvy t) = (x0, vx0, y0, vy0)
  /\ (kx t, ky t) = (x t, y t)
  /\ obs_tail t = [] /\ kf_tail t = [].
Proof.
  intros Hlit. cbv zeta.
  unfold is_valid, in_bounds, coasted_too_long, coasted_too_far, fgtb.
  simpl. rewrite Hlit.
  destruct (Bounds2D.contains _ x0 y0); repeat split; reflexivity.
Qed.
End NewTrack.

(** * Further properties of the engine *)

Section EngineMore.
Context {F : Type} `{Numeric F} `{KalmanLib F}.

(** The greedy matching changes the listed tracks only; a listed track is
    one frame older, and its coast counter is 0 or one more. *)
Lemma greedy_ages (distance_threshold : F) (h h' : heap F)
    (tracks : list ref) (pool pool' : list (Observation F))
    (assignment : list (option (Observation F))) :
  greedy distance_threshold h tracks pool assignment h' pool' ->
  (forall t, ~ In t tracks -> h' t = h t)
  /\ (NoDup tracks ->
      forall t, In t tracks ->
        TrackedPoint.lifetime (h' t) = (TrackedPoint.lifetime (h t) + 1)%Z
        /\ (TrackedPoint.n_coasts (h' t) = 0%Z
            \/ TrackedPoint.n_coasts (h' t)
               = (TrackedPoint.n_coasts (h t) + 1)%Z)).
Proof.
  induction 1 as
    [h pool
    |h track rest pool z d pool1 h1 asg h' pool' En Ed Er E1 Eo G [IHo IHl]
    |h track rest pool nz d h1 asg h' pool' En Ed E1 Eo G [IHo IHl]].
  - split; [reflexivity|]. intros _ t [].
  - split.
    + intros t Hn. rewrite IHo by (intros Hin; apply Hn; now right).
      apply Eo. intros ->. apply Hn. now left.
    + intros Hnd t Hin. inversion Hnd as [|? ? Hnotin Hnd']; subst.
      destruct Hin as [<-|Hin].
      * rewrite (IHo _ Hnotin), E1. rewrite step_unfold.
        cbv zeta.
        destruct (Bounds2D.contains _ _ _);
          rewrite ?update_tail_spec; simpl; auto.
      * assert (Hne : t <> track) by (intros ->; contradiction).
        rewrite <- (Eo _ Hne). now apply IHl.
  - split.
    + intros t Hn. rewrite IHo by (intros Hin; apply Hn; now right).
      apply Eo. intros ->. apply Hn. now left.
    + intros Hnd t Hin. inversion Hnd as [|? ? Hnotin Hnd']; subst.
      destruct Hin as [<-|Hin].
      * rewrite (IHo _ Hnotin), E1. rewrite coast_unfold.
        cbv zeta.
        destruct (kf_x (kf_predict (TrackedPoint.kf (h track))))
          as [[[px pvx] py] pvy].
        simpl. auto.
      * assert (Hne : t <> track) by (intros ->; contradiction).
        rewrite <- (Eo _ Hne). now apply IHl.
Qed.


(** With no observation the matching loop coasts every track. *)
Lemma matching_without_observations (distance_threshold : F) :
  inf_is_top F ->
  forall (tracks : list ref) (h : heap F),
  exists h1,
    matching distance_threshold h tracks [] = Ok (h1, [])
    /\ (forall t, ~ In t tracks -> h1 t = h t)
    /\ (NoDup tracks ->
        forall t, In t tracks -> h1 t = TrackedPoint.coast (h t)).
Proof.
  intros Htop. induction tracks as [|track rest IH]; intros h.
  - exists h. split; [reflexivity|]. split; [reflexivity|]. intros _ t [].
  - simpl. unfold TrackedPoint.nearest_observation. simpl.
    rewrite Htop.
    destruct (IH (write h track (TrackedPoint.coast (h track))))
      as (h1 & Em & Ho & Hl).
    exists h1. split; [exact Em|]. split.
    + intros t Hn. rewrite Ho by (intros Hin; apply Hn; now right).
      apply write_other. intros ->. apply Hn. now left.
    + intros Hnd t Hin. inversion Hnd as [|? ? Hnotin Hnd']; subst.
      destruct Hin as [<-|Hin].
      * rewrite (Ho _ Hnotin). apply write_same.
      * rewrite (Hl Hnd' _ Hin). rewrite write_other; [reflexivity|].
        intros ->. contradiction.
Qed.

(** X12.  A frame without observations: every track of a list without
    repeated tracks coasts, no other object is changed, and no track is
    born, whatever the callback: the list of tracks on return is what the
    pruning loop kept, and the objects are those the matching loop left. *)
Theorem no_observations_all_coast (h : heap F) (tracks : list ref)
    (track_adder : adder F) (distance_threshold : F)
    (max_n_coasts min_lifetime : Z) :
  inf_is_top F ->
  NoDup tracks ->
  exists h1 kept out,
    matching distance_threshold h tracks [] = Ok (h1, [])
    /\ (forall t, In t tracks -> h1 t = TrackedPoint.coast (h t))
    /\ (forall t, ~ In t tracks -> h1 t = h t)
    /\ pruning h1 min_lifetime 0 tracks []
       = Ok (kept, out_finished_tracks out)
    /\ match_tracks_to_observations h tracks [] track_adder
         distance_threshold max_n_coasts min_lifetime = Ok out
    /\ out_tracked_objects out = kept
    /\ out_observations out = []
    /\ (forall t, out_objects out t = h1 t).
Proof.
  intros Htop Hnd.
  destruct (matching_without_observations distance_threshold Htop tracks h)
    as (h1 & Em & Ho & Hl).
  destruct (pruning_spec h1 min_lifetime 0 tracks [])
    as (kept & fin & Ep & _).
  exists h1, kept, (mkOutcome h1 kept [] fin). simpl.
  split; [exact Em|]. split; [now apply Hl|]. split; [exact Ho|].
  split; [exact Ep|]. split; [|auto].
  unfold match_tracks_to_observations. rewrite Em. simpl. rewrite Ep.
  reflexivity.
Qed.

(** The pruning loop at index [length seen] of a list without repeated
    tracks. *)
Lemma pruning_from (h : heap F) (min_lifetime : Z) (n : nat) :
  forall (rest seen finished : list ref),
  length rest <= n ->
  NoDup (seen ++ rest) ->
  pruning h min_lifetime (length seen) (seen ++ rest) finished
  = Ok (seen ++ after_pruning (fun t => TrackedPoint.is_valid (h t)) rest,
        finished
        ++ returned_by_pruning (fun t => TrackedPoint.is_valid (h t))
             (salvaged h min_lifetime) rest).
Proof.
  induction n as [|n IH]; intros rest seen finished Hlen Hnd.
  - destruct rest; [|simpl in Hlen; lia].
    rewrite pruning_turn. rewrite app_nil_r.
    rewrite (proj2 (nth_error_None seen (length seen))) by lia.
    simpl. now rewrite !app_nil_r.
  - destruct rest as [|t rest].
    { rewrite pruning_turn. rewrite app_nil_r.
      rewrite (proj2 (nth_error_None seen (length seen))) by lia.
      simpl. now rewrite !app_nil_r. }
    rewrite pruning_turn.
    rewrite nth_error_app2 by lia. rewrite Nat.sub_diag. simpl.
    assert (Hnext : forall (u : ref) l,
               seen ++ u :: l = (seen ++ [u]) ++ l)
      by (intros; now rewrite <- app_assoc).
    assert (Hidx : forall u : ref, S (length seen) = length (seen ++ [u]))
      by (intros; rewrite length_app; simpl; lia).
    destruct (TrackedPoint.is_valid (h t)) eqn:Ev.
    + rewrite (Hnext t), (Hidx t).
      rewrite IH; [|simpl in Hlen; lia|now rewrite <- Hnext].
      now rewrite <- app_assoc.
    + assert (Er : list_remove Nat.eq_dec t (seen ++ t :: rest)
                   = Some (seen ++ rest)).
      { apply NoDup_remove_2 in Hnd.
        assert (Hs : ~ In t seen)
          by (intros Hin; apply Hnd; apply in_or_app; now left).
        clear - Hs. induction seen as [|s seen IHs]; simpl.
        - destruct (Nat.eq_dec t t); [reflexivity|congruence].
        - destruct (Nat.eq_dec t s) as [->|_].
          + exfalso. apply Hs. now left.
          + rewrite IHs; [reflexivity|].
            intros Hin. apply Hs. now right. }
      rewrite Er. apply NoDup_remove_1 in Hnd.
      destruct rest as [|u rest].
      * rewrite pruning_turn. rewrite app_nil_r.
        rewrite (proj2 (nth_error_None seen (S (length seen)))) by lia.
        simpl. rewrite !app_nil_r.
        destruct (salvaged h min_lifetime t);
          [reflexivity|now rewrite app_nil_r].
      * rewrite (Hnext u), (Hidx u).
        rewrite IH; [|simpl in Hlen; lia|now rewrite <- Hnext].
        rewrite <- !app_assoc. simpl.
        destruct (salvaged h min_lifetime t);
          [now rewrite <- app_assoc|reflexivity].
Qed.

(** X13.  On a list without repeated tracks the pruning loop is this:
    going through the list, a valid track is kept; an invalid track is
    removed -- and returned if its lifetime is above [min_lifetime] and
    its coast counter below its own limit -- and the track right after it
    is kept without its validity being looked at. *)
Theorem pruning_closed_form (h : heap F) (min_lifetime : Z)
    (tracked_objects : list ref) :
  NoDup tracked_objects ->
  pruning h min_lifetime 0 tracked_objects []
  = Ok (after_pruning (fun t => TrackedPoint.is_valid (h t))
          tracked_objects,
        returned_by_pruning (fun t => TrackedPoint.is_valid (h t))
          (salvaged h min_lifetime) tracked_objects).
Proof.
  intros Hnd.
  apply (@pruning_from h min_lifetime (length tracked_objects)
           tracked_objects [] []); [lia|exact Hnd].
Qed.

(** X14.  On a list without repeated tracks the pruning loop splits the
    tracks: the tracks it keeps and the tracks it returns are tracks of
    the list, each at most once, and no track is both kept and returned;
    every valid track is kept, and every returned track is invalid. *)
Theorem pruning_splits (h : heap F) (min_lifetime : Z)
    (tracked_objects : list ref) :
  NoDup tracked_objects ->
  exists kept finished,
    pruning h min_lifetime 0 tracked_objects [] = Ok (kept, finished)
    /\ NoDup kept /\ NoDup finished
    /\ (forall t, In t kept -> In t tracked_objects)
    /\ (forall t, In t finished ->
          In t tracked_objects /\ ~ In t kept
          /\ TrackedPoint.is_valid (h t) = false)
    /\ (forall t, In t tracked_objects ->
          TrackedPoint.is_valid (h t) = true -> In t kept).
Proof.
  intros Hnd.
  destruct (pruning_spec h min_lifetime 0 tracked_objects [])
    as (kept & fin & Ep & Hle & Hinv & Hcnt).
  pose proof (proj1 (NoDup_count_occ Nat.eq_dec tracked_objects) Hnd) as H1.
  exists kept, fin. split; [exact Ep|].
  assert (Hfin : forall t, count_occ Nat.eq_dec fin t
                           <= count_occ Nat.eq_dec tracked_objects t
                              - count_occ Nat.eq_dec kept t).
  { intros t. rewrite Hcnt. simpl.
    destruct (salvaged h min_lifetime t); unfold ref in *; lia. }
  unfold ref in *.
  split; [|split; [|split; [|split]]].
  - apply (NoDup_count_occ Nat.eq_dec). intros t.
    specialize (Hle t). specialize (H1 t). lia.
  - apply (NoDup_count_occ Nat.eq_dec). intros t.
    specialize (Hfin t). specialize (H1 t). lia.
  - intros t Hin. apply (count_occ_In Nat.eq_dec) in Hin.
    apply (count_occ_In Nat.eq_dec). specialize (Hle t). lia.
  - intros t Hin. apply (count_occ_In Nat.eq_dec) in Hin.
    specialize (Hfin t). specialize (H1 t). specialize (Hle t).
    split; [|split].
    + apply (count_occ_In Nat.eq_dec). lia.
    + rewrite (count_occ_In Nat.eq_dec). lia.
    + apply Hinv. lia.
  - intros t Hin Hv. apply (count_occ_In Nat.eq_dec) in Hin.
    apply (count_occ_In Nat.eq_dec).
    destruct (Nat.eq_dec (count_occ Nat.eq_dec kept t) 0) as [E0|]; [|lia].
    assert (Hlt : count_occ Nat.eq_dec kept t
                  < count_occ Nat.eq_dec tracked_objects t) by lia.
    apply Hinv in Hlt. congruence.
Qed.
End EngineMore.

(** * The further properties at concrete frames *)

Lemma exact_lt_irreflexive : lt_irreflexive Exact.xint.
Proof. intros [u|]; simpl; [apply Z.ltb_irrefl|reflexivity]. Qed.

Lemma nodup_two : NoDup [0; 1].
Proof.
  constructor; [simpl; intros [E|[]]; discriminate|].
  constructor; [intros []|constructor].
Qed.

Lemma nodup_three : NoDup [0; 1; 2].
Proof.
  constructor; [simpl; intros [E|[E|[]]]; discriminate|].
  constructor; [simpl; intros [E|[]]; discriminate|].
  constructor; [intros []|constructor].
Qed.

Lemma obs_tail_is_a_window_witness :
  tails_bounded Scenario.edge_track
  /\ TrackedPoint.obs_tail
       (fold_left run_call Scenario.calls Scenario.edge_track)
     = newest (TrackedPoint.n_tail_points Scenario.edge_track)
         (TrackedPoint.obs_tail Scenario.edge_track
          ++ observed_by Scenario.calls).
Proof.
  assert (Hb : tails_bounded Scenario.edge_track)
    by (split; vm_compute; discriminate).
  split; [exact Hb|].
  exact (@obs_tail_is_a_window _ _ _ Scenario.calls Scenario.edge_track Hb).
Defined.

Lemma newest_tail_point_witness :
  (1 <= TrackedPoint.n_tail_points Scenario.edge_track)%Z
  /\ (exists q,
        TrackedPoint.obs_tail
          (TrackedPoint.step Scenario.edge_track Scenario.outside)
        = q ++ [(TrackedPoint.x
                   (TrackedPoint.step Scenario.edge_track Scenario.outside),
                 TrackedPoint.y
                   (TrackedPoint.step Scenario.edge_track Scenario.outside))])
  /\ (exists q,
        TrackedPoint.kf_tail (TrackedPoint.coast Scenario.edge_track)
        = q ++ [(TrackedPoint.kx (TrackedPoint.coast Scenario.edge_track),
                 TrackedPoint.ky (TrackedPoint.coast Scenario.edge_track))]).
Proof.
  assert (Hn : (1 <= TrackedPoint.n_tail_points Scenario.edge_track)%Z)
    by (vm_compute; discriminate).
  split; [exact Hn|].
  exact (newest_tail_point Scenario.edge_track Scenario.outside Hn).
Defined.

Lemma boundary_edges_witness :
  lt_irreflexive Exact.xint
  /\ (forall a : Exact.xint, fleb a a = true)
  /\ Bounds2D.contains (TrackedPoint.boundary Scenario.origin)
       (Exact.Fin 1000) (Exact.Fin 5) = false
  /\ Bounds2D.contains (TrackedPoint.boundary Scenario.origin)
       (Exact.Fin 5) (Exact.Fin 1000) = false
  /\ Bounds2D.contains (TrackedPoint.boundary Scenario.origin)
       (Exact.Fin 0) (Exact.Fin 0)
     = fltb (Exact.Fin 0) (Exact.Fin 1000)
       && fltb (Exact.Fin 0) (Exact.Fin 1000)
  /\ TrackedPoint.is_valid
       (TrackedPoint.set_xy Scenario.origin (Exact.Fin 1000) (Exact.Fin 5))
     = false
  /\ TrackedPoint.is_valid
       (TrackedPoint.set_xy Scenario.origin (Exact.Fin 5) (Exact.Fin 1000))
     = false.
Proof.
  split; [exact exact_lt_irreflexive|].
  split; [exact (@fleb_refl _ _ exact_order_laws)|].
  exact (boundary_edges (TrackedPoint.boundary Scenario.origin)
           (Exact.Fin 5) (Exact.Fin 5) Scenario.origin
           exact_lt_irreflexive (@fleb_refl _ _ exact_order_laws)).
Defined.

Lemma new_track_witness :
  fltb (of_Z 1000) (of_Z 0 : float) = false
  /\ TrackedPoint.is_valid Scenario.edge_track
     = Bounds2D.contains
         (Bounds2D.init (of_Z 0) (of_Z 0) (of_Z 1000) (of_Z 1000))
         990%float 500%float
  /\ (TrackedPoint.kx Scenario.edge_track,
      TrackedPoint.kvx Scenario.edge_track,
      TrackedPoint.ky Scenario.edge_track,
      TrackedPoint.kvy Scenario.edge_track)
     = (990, 0, 500, 0)%float
  /\ (TrackedPoint.kx Scenario.edge_track,
      TrackedPoint.ky Scenario.edge_track)
     = (TrackedPoint.x Scenario.edge_track,
        TrackedPoint.y Scenario.edge_track)
  /\ TrackedPoint.obs_tail Scenario.edge_track = []
  /\ TrackedPoint.kf_tail Scenario.edge_track = [].
Proof.
  assert (Hlit : fltb (of_Z 1000) (of_Z 0 : float) = false)
    by (vm_compute; reflexivity).
  split; [exact Hlit|].
  exact (new_track 990%float 0%float 500%float 0%float 1%float 1%float
           Hlit).
Defined.


Lemma no_observations_all_coast_witness :
  inf_is_top float
  /\ NoDup [0; 1]
  /\ exists h1 kept out,
      matching 30%float Scenario.near_edge [0; 1] [] = Ok (h1, [])
      /\ (forall t, In t [0; 1] ->
            h1 t = TrackedPoint.coast (Scenario.near_edge t))
      /\ (forall t, ~ In t [0; 1] -> h1 t = Scenario.near_edge t)
      /\ pruning h1 3 0 [0; 1] [] = Ok (kept, out_finished_tracks out)
      /\ match_tracks_to_observations Scenario.near_edge [0; 1] []
           (Binary64.add_track 1 1) 30%float 3 3 = Ok out
      /\ out_tracked_objects out = kept
      /\ out_observations out = []
      /\ (forall t, out_objects out t = h1 t).
Proof.
  split; [exact binary64_inf_is_top|]. split; [exact nodup_two|].
  exact (@no_observations_all_coast _ _ _ Scenario.near_edge [0; 1]
           (Binary64.add_track 1 1) 30%float 3 3
           binary64_inf_is_top nodup_two).
Defined.

Lemma pruning_closed_form_witness :
  NoDup [0; 1; 2]
  /\ pruning Scenario.lost 3 0 [0; 1; 2] []
     = Ok (after_pruning (fun t => TrackedPoint.is_valid (Scenario.lost t))
             [0; 1; 2],
           returned_by_pruning
             (fun t => TrackedPoint.is_valid (Scenario.lost t))
             (salvaged Scenario.lost 3) [0; 1; 2]).
Proof.
  split; [exact nodup_three|].
  exact (@pruning_closed_form _ _ Scenario.lost 3 [0; 1; 2] nodup_three).
Defined.

Lemma pruning_splits_witness :
  NoDup [0; 1; 2]
  /\ exists kept finished,
      pruning Scenario.lost 3 0 [0; 1; 2] [] = Ok (kept, finished)
      /\ NoDup kept /\ NoDup finished
      /\ (forall t, In t kept -> In t [0; 1; 2])
      /\ (forall t, In t finished ->
            In t [0; 1; 2] /\ ~ In t kept
            /\ TrackedPoint.is_valid (Scenario.lost t) = false)
      /\ (forall t, In t [0; 1; 2] ->
            TrackedPoint.is_valid (Scenario.lost t) = true -> In t kept).
Proof.
  split; [exact nodup_three|].
  exact (@pruning_splits _ _ Scenario.lost 3 [0; 1; 2] nodup_three).
Defined.

Lemma coasted_too_long_is_permanent_witness :
  TrackedPoint.coasted_too_long
    (TrackedPoint.set_n_coasts Scenario.edge_track 21) = true
  /\ TrackedPoint.coasted_too_long
       (fold_left run_call Scenario.calls
          (TrackedPoint.set_n_coasts Scenario.edge_track 21)) = true
  /\ TrackedPoint.is_valid
       (fold_left run_call Scenario.calls
          (TrackedPoint.set_n_coasts Scenario.edge_track 21)) = false.
Proof.
  assert (Hl : TrackedPoint.coasted_too_long
                 (TrackedPoint.set_n_coasts Scenario.edge_track 21) = true)
    by (vm_compute; reflexivity).
  split; [exact Hl|].
  exact (@coasted_too_long_is_permanent _ _ _ Scenario.calls
           (TrackedPoint.set_n_coasts Scenario.edge_track 21) Hl).
Defined.

